(** * Recall: the memory game's round controller

  A shallow embedding of the two versions of the game page of
  hieudoanm/recall:

  - [src/unnamed/part_000], the page with the best streak, the masked
    input and the highlighted mistakes (module [Page]);
  - [src/packages/app/src/pages/index.tsx], the earlier page, whose
    [chunkDigits] differs (module [IndexPage]; its component is module
    [IndexGame]).

  The two files have the same [generateNumber], [startRound] (but for a
  call that moves the focus), [start] and [next]; the earlier page has no
  best streak, no [maxLength] and a submit button that is disabled on an
  empty input only.

  JavaScript strings are modelled as [string] (a sequence of code units,
  here 8-bit characters), integral JavaScript numbers as [Z], the two
  real-valued expressions ([Math.random() * 10] and [duration / 1000]) as
  rationals, React's [useState] cells and [useRef] boxes as fields of one
  record that the handlers thread, the browser's timer table and
  [localStorage] as finite maps. Time itself is not modelled: a pending
  timer may fire at any moment. *)

From Stdlib Require Import ZArith QArith Qround String Ascii DecimalString DecimalPos.
From stdpp Require Import gmap strings list fin_maps.
From Equations Require Import Equations.

Local Open Scope string_scope.

(** ** JavaScript strings *)

Module JsString.

(** [s.slice(0, n)] for [0 <= n]. *)
Fixpoint take (n : nat) (s : string) : string :=
  match n, s with
  | S k, String c s' => String c (take k s')
  | _, _ => ""
  end.

(** [s.slice(n)] for [0 <= n]. *)
Fixpoint drop (n : nat) (s : string) : string :=
  match n, s with
  | S k, String _ s' => drop k s'
  | _, _ => s
  end.

(** [s[i]]: [None] stands for [undefined]. *)
Fixpoint at_ (s : string) (i : nat) : option ascii :=
  match s, i with
  | String c _, O => Some c
  | String _ s', S k => at_ s' k
  | EmptyString, _ => None
  end.

(** [s.split('')]: one string per code unit. *)
Fixpoint split_chars (s : string) : list string :=
  match s with
  | EmptyString => []
  | String c s' => String c "" :: split_chars s'
  end.

(** [xs.join(sep)]. *)
Definition join (sep : string) (xs : list string) : string :=
  String.concat sep xs.

Fixpoint all (p : ascii -> bool) (s : string) : bool :=
  match s with
  | EmptyString => true
  | String c s' => p c && all p s'
  end.

(** Removing every occurrence of one character. *)
Fixpoint remove (x : ascii) (s : string) : string :=
  match s with
  | EmptyString => ""
  | String c s' => if Ascii.eqb c x then remove x s' else String c (remove x s')
  end.

Definition isDigit (c : ascii) : bool :=
  (48 <=? nat_of_ascii c)%nat && (nat_of_ascii c <=? 57)%nat.

(** The line terminators among the 8-bit characters: LF and CR. *)
Definition isLineTerminator (c : ascii) : bool :=
  Ascii.eqb c "010"%char || Ascii.eqb c "013"%char.

Definition plain (c : ascii) : bool := negb (isLineTerminator c).

Definition isNot (x : ascii) (c : ascii) : bool := negb (Ascii.eqb c x).

Definition LF : ascii := "010"%char.

(** A string with a line feed in the middle. *)
Definition twoLines : string := "ab" ++ String LF "cd".

(** ** The regular expression [.{1,size}] with the [g] flag *)

(** The greedy run of at most [room] characters other than line
    terminators at the head of [s]. *)
Fixpoint dotRun (room : nat) (s : string) : string :=
  match room, s with
  | S k, String c s' =>
      if isLineTerminator c then "" else String c (dotRun k s')
  | _, _ => ""
  end.

(** All the matches of [/.{1,size}/g] in [s], left to right: where no
    character can be matched the search moves on by one character,
    otherwise it resumes after the match. *)
Equations? matchAll (size : nat) (s : string) : list string
  by wf (String.length s) lt :=
matchAll size EmptyString := [];
matchAll size (String c s') :=
  if isLineTerminator c then matchAll size s'
  else
    String c (dotRun (pred size) s')
      :: matchAll size (drop (String.length (dotRun (pred size) s')) s').
Proof.
  clear matchAll. apply Nat.lt_succ_r.
  generalize (String.length (dotRun (pred size) s')) as n.
  intros n; revert s'; induction n as [|n IH]; intros [|c' s']; simpl; auto.
Qed.

(** [s.match(new RegExp(`.{1,${size}}`, 'g'))]: [None] stands for [null]. *)
Definition match_ (size : nat) (s : string) : option (list string) :=
  match matchAll size s with
  | [] => None
  | ms => Some ms
  end.

End JsString.

(** ** JavaScript numbers *)

Module JsNumber.
Import JsString.

(** The numbers that the page handles are integers, or [NaN] when
    [parseInt] finds no digit. *)
Inductive Number := NaN | Int (z : Z).

(** [Number.prototype.toString]. *)
Definition toString (n : Number) : string :=
  match n with
  | NaN => "NaN"
  | Int z => NilZero.string_of_int (Z.to_int z)
  end.

(** [Math.max(a, b)]. *)
Definition Math_max (a b : Number) : Number :=
  match a, b with
  | Int x, Int y => Int (Z.max x y)
  | _, _ => NaN
  end.

(** White space among the 8-bit characters: TAB, LF, VT, FF, CR, SP. *)
Definition isWhiteSpace (c : ascii) : bool :=
  let n := nat_of_ascii c in
  ((9 <=? n)%nat && (n <=? 13)%nat) || (n =? 32)%nat.

Fixpoint trimStart (s : string) : string :=
  match s with
  | String c s' => if isWhiteSpace c then trimStart s' else s
  | EmptyString => ""
  end.

Fixpoint digitsPrefix (s : string) : string :=
  match s with
  | String c s' => if isDigit c then String c (digitsPrefix s') else ""
  | EmptyString => ""
  end.

(** [parseInt(s, 10)]: leading white space, an optional sign, then the
    longest run of decimal digits; [NaN] when that run is empty. The value
    is exact (no rounding to a double). *)
Definition parseInt (s : string) : Number :=
  let s := trimStart s in
  let '(sign, s) :=
    match s with
    | String "-" s' => ((-1)%Z, s')
    | String "+" s' => (1%Z, s')
    | _ => (1%Z, s)
    end in
  match digitsPrefix s with
  | EmptyString => NaN
  | ds =>
      match NilEmpty.uint_of_string ds with
      | Some u => Int (sign * Z.of_uint u)
      | None => NaN
      end
  end.

End JsNumber.

(** ** The page of [src/unnamed/part_000] *)

Module Page.
Import JsString JsNumber.

Definition TIME_PER_DIGIT : Z := 650.
Definition MIN_TIME : Z := 1200.
Definition MAX_TIME : Z := 6000.

(** [value.length % size || size]: a remainder of 0 is falsy. *)
Definition firstGroupLength (value : string) (size : nat) : nat :=
  if (String.length value mod size =? 0)%nat then size
  else (String.length value mod size)%nat.

(** [chunkDigits(value, size = 3)], for [size >= 1] (every call site
    takes the default; the pattern [.{1,0}] is not a regular expression).
    An [undefined] or empty [rest] is falsy. *)
Definition chunkDigits (value : string) (size : nat) : string :=
  let firstGroupLength := firstGroupLength value size in
  let first := take firstGroupLength value in
  let rest := join "," <$> match_ size (drop firstGroupLength value) in
  match rest with
  | Some (String _ _ as rest) => first ++ "," ++ rest
  | _ => first
  end.

(** [generateNumber(length)]. [random i] is the value that the [i]-th
    call of [Math.random()] returns during this call; the product by 10 is
    taken exactly. The engine rounds it to a double, which stays below 10
    for a value below 1 but can reach the next integer (the double [0.7]
    times 10 is 7, the exact product is just below 7): the digit of a
    single draw is that of the code up to this rounding, and
    [Machine.generateNumberBy] leaves the rounding open. *)
Definition generateNumber (random : nat -> Q) (length : Z) : string :=
  join "" (map (fun i => toString (Int (Qfloor (random i * 10))))
               (seq 0 (Z.to_nat length))).

Definition span_red : string :=
  "<span class=" ++ String "034" "text-red-500 font-bold" ++ String "034" ">".

Definition mark (digit : string) : string := span_red ++ digit ++ "</span>".

(** The array that [highlightMistakes] joins: one entry per character of
    [input]. [correct[i]] is [undefined] past the end of [correct]. *)
Definition highlightEntries (input correct : string) : list string :=
  imap (fun i digit =>
          if bool_decide (Some digit = (fun c => String c "") <$> at_ correct i)
          then digit else mark digit)
       (split_chars input).

Definition highlightMistakes (input correct : string) : string :=
  join "" (highlightEntries input correct).

(** *** The component's state and the browser around it *)

Module Phase.
Inductive t := ready | show | input | result.
End Phase.

(** A pending timer of the browser: the one-shot timer of [setTimeout]
    or the periodic one of [setInterval], with its delay in ms. The page
    registers one callback of each kind ([expire] and [tick] below). *)
Inductive Timer := Timeout (delay : Z) | Interval (delay : Z).

(** The nine [useState] cells, the two timer [useRef] boxes ([None] is
    [null]), and the browser: its table of pending timers, the next timer
    id it hands out, and [localStorage]. *)
Record State := {
  lastRoundFailed : bool;
  phase : Phase.t;
  level : Z;
  number : string;
  input : string;
  message : string;
  countdown : Z;
  mask : bool;
  highStreak : Number;
  timerRef : option positive;
  intervalRef : option positive;
  timers : gmap positive Timer;
  nextTimerId : positive;
  localStorage : gmap string string
}.

(** A handler is a state transformer; [a >> b] runs [a] then [b]. Every
    handler runs against the latest render, so the values a closure
    captured are those of the state the handler starts from. *)
Definition Action : Type := State -> State.

Definition seq_ (a b : Action) : Action := fun s => b (a s).
Notation "a >> b" := (seq_ a b) (at level 61, left associativity).

Definition skip : Action := fun s => s.

(** The state setters of [useState]; each takes an updater. *)
Definition setLastRoundFailed (f : bool -> bool) : Action := fun s =>
  {| lastRoundFailed := f (lastRoundFailed s); phase := phase s;
     level := level s; number := number s; input := input s;
     message := message s; countdown := countdown s; mask := mask s;
     highStreak := highStreak s; timerRef := timerRef s;
     intervalRef := intervalRef s; timers := timers s;
     nextTimerId := nextTimerId s; localStorage := localStorage s |}.

Definition setPhase (f : Phase.t -> Phase.t) : Action := fun s =>
  {| lastRoundFailed := lastRoundFailed s; phase := f (phase s);
     level := level s; number := number s; input := input s;
     message := message s; countdown := countdown s; mask := mask s;
     highStreak := highStreak s; timerRef := timerRef s;
     intervalRef := intervalRef s; timers := timers s;
     nextTimerId := nextTimerId s; localStorage := localStorage s |}.

Definition setLevel (f : Z -> Z) : Action := fun s =>
  {| lastRoundFailed := lastRoundFailed s; phase := phase s;
     level := f (level s); number := number s; input := input s;
     message := message s; countdown := countdown s; mask := mask s;
     highStreak := highStreak s; timerRef := timerRef s;
     intervalRef := intervalRef s; timers := timers s;
     nextTimerId := nextTimerId s; localStorage := localStorage s |}.

Definition setNumber (f : string -> string) : Action := fun s =>
  {| lastRoundFailed := lastRoundFailed s; phase := phase s;
     level := level s; number := f (number s); input := input s;
     message := message s; countdown := countdown s; mask := mask s;
     highStreak := highStreak s; timerRef := timerRef s;
     intervalRef := intervalRef s; timers := timers s;
     nextTimerId := nextTimerId s; localStorage := localStorage s |}.

Definition setInput (f : string -> string) : Action := fun s =>
  {| lastRoundFailed := lastRoundFailed s; phase := phase s;
     level := level s; number := number s; input := f (input s);
     message := message s; countdown := countdown s; mask := mask s;
     highStreak := highStreak s; timerRef := timerRef s;
     intervalRef := intervalRef s; timers := timers s;
     nextTimerId := nextTimerId s; localStorage := localStorage s |}.

Definition setMessage (f : string -> string) : Action := fun s =>
  {| lastRoundFailed := lastRoundFailed s; phase := phase s;
     level := level s; number := number s; input := input s;
     message := f (message s); countdown := countdown s; mask := mask s;
     highStreak := highStreak s; timerRef := timerRef s;
     intervalRef := intervalRef s; timers := timers s;
     nextTimerId := nextTimerId s; localStorage := localStorage s |}.

Definition setCountdown (f : Z -> Z) : Action := fun s =>
  {| lastRoundFailed := lastRoundFailed s; phase := phase s;
     level := level s; number := number s; input := input s;
     message := message s; countdown := f (countdown s); mask := mask s;
     highStreak := highStreak s; timerRef := timerRef s;
     intervalRef := intervalRef s; timers := timers s;
     nextTimerId := nextTimerId s; localStorage := localStorage s |}.

Definition setMask (f : bool -> bool) : Action := fun s =>
  {| lastRoundFailed := lastRoundFailed s; phase := phase s;
     level := level s; number := number s; input := input s;
     message := message s; countdown := countdown s; mask := f (mask s);
     highStreak := highStreak s; timerRef := timerRef s;
     intervalRef := intervalRef s; timers := timers s;
     nextTimerId := nextTimerId s; localStorage := localStorage s |}.

Definition setHighStreak (f : Number -> Number) : Action := fun s =>
  {| lastRoundFailed := lastRoundFailed s; phase := phase s;
     level := level s; number := number s; input := input s;
     message := message s; countdown := countdown s; mask := mask s;
     highStreak := f (highStreak s); timerRef := timerRef s;
     intervalRef := intervalRef s; timers := timers s;
     nextTimerId := nextTimerId s; localStorage := localStorage s |}.

Definition timerRef_current (f : option positive -> option positive) : Action := fun s =>
  {| lastRoundFailed := lastRoundFailed s; phase := phase s;
     level := level s; number := number s; input := input s;
     message := message s; countdown := countdown s; mask := mask s;
     highStreak := highStreak s; timerRef := f (timerRef s);
     intervalRef := intervalRef s; timers := timers s;
     nextTimerId := nextTimerId s; localStorage := localStorage s |}.

Definition intervalRef_current (f : option positive -> option positive) : Action := fun s =>
  {| lastRoundFailed := lastRoundFailed s; phase := phase s;
     level := level s; number := number s; input := input s;
     message := message s; countdown := countdown s; mask := mask s;
     highStreak := highStreak s; timerRef := timerRef s;
     intervalRef := f (intervalRef s); timers := timers s;
     nextTimerId := nextTimerId s; localStorage := localStorage s |}.

Definition timers_update (f : gmap positive Timer -> gmap positive Timer) : Action := fun s =>
  {| lastRoundFailed := lastRoundFailed s; phase := phase s;
     level := level s; number := number s; input := input s;
     message := message s; countdown := countdown s; mask := mask s;
     highStreak := highStreak s; timerRef := timerRef s;
     intervalRef := intervalRef s; timers := f (timers s);
     nextTimerId := nextTimerId s; localStorage := localStorage s |}.

Definition nextTimerId_update (f : positive -> positive) : Action := fun s =>
  {| lastRoundFailed := lastRoundFailed s; phase := phase s;
     level := level s; number := number s; input := input s;
     message := message s; countdown := countdown s; mask := mask s;
     highStreak := highStreak s; timerRef := timerRef s;
     intervalRef := intervalRef s; timers := timers s;
     nextTimerId := f (nextTimerId s); localStorage := localStorage s |}.

Definition localStorage_update (f : gmap string string -> gmap string string) : Action := fun s =>
  {| lastRoundFailed := lastRoundFailed s; phase := phase s;
     level := level s; number := number s; input := input s;
     message := message s; countdown := countdown s; mask := mask s;
     highStreak := highStreak s; timerRef := timerRef s;
     intervalRef := intervalRef s; timers := timers s;
     nextTimerId := nextTimerId s; localStorage := f (localStorage s) |}.


Definition to {A} (v : A) : A -> A := fun _ => v.

(** Focus changes are not part of the state. *)
Definition blurActive : Action := skip.
Definition focusInput : Action := skip.

(** *** Timers *)

Definition clearTimeout (id : positive) : Action := timers_update (delete id).
Definition clearInterval (id : positive) : Action := timers_update (delete id).

(** [setTimeout] and [setInterval] return the id of the new timer. *)
Definition setTimer (t : Timer) (s : State) : positive * State :=
  (nextTimerId s,
   nextTimerId_update Pos.succ (timers_update (insert (nextTimerId s) t) s)).
Definition setTimeout (delay : Z) := setTimer (Timeout delay).
Definition setInterval (delay : Z) := setTimer (Interval delay).

Definition clearTimers : Action := fun s =>
  ((if timerRef s is Some id then clearTimeout id else skip) >>
   (if intervalRef s is Some id then clearInterval id else skip)) s.

(** The callback of the countdown ticker. *)
Definition tick : Action := setCountdown (fun c => Z.max 0 (c - 1)).

(** The callback of the timeout that ends the show phase. *)
Definition expire : Action :=
  clearTimers >> setCountdown (to 0%Z) >> setPhase (to Phase.input) >> focusInput.

Definition duration (nextLevel : Z) : Z :=
  Z.min MAX_TIME (Z.max MIN_TIME (nextLevel * TIME_PER_DIGIT)).

Definition startRound (random : nat -> Q) (nextLevel : Z) : Action := fun s =>
  let s := clearTimers s in
  let value := generateNumber random nextLevel in
  let duration := duration nextLevel in
  let s := setNumber (to value) s in
  let s := setInput (to "") s in
  let s := setPhase (to Phase.show) s in
  let s := setCountdown (to (Qceiling (inject_Z duration / 1000))) s in
  let '(id, s) := setInterval 1000 s in
  let s := intervalRef_current (to (Some id)) s in
  let '(id, s) := setTimeout duration s in
  timerRef_current (to (Some id)) s.

Definition start (random : nat -> Q) : Action :=
  blurActive >> setLevel (to 1%Z) >> setMessage (to "") >> startRound random 1.

Definition updateHighStreak (newStreak : Z) : Action := fun s =>
  let high := Math_max (highStreak s) (Int newStreak) in
  (localStorage_update (insert "highStreak" (toString high)) >>
   setHighStreak (to high)) s.

Definition quote : string := String "034" "".

Definition submit : Action := fun s =>
  let level := level s in
  let input := input s in
  let number := number s in
  (blurActive >>
   (if String.eqb input number then
      setMessage (to "Correct! Level up 🎉") >>
      setLevel (fun l => (l + 1)%Z) >>
      updateHighStreak level >>
      setLastRoundFailed (to false)
    else
      let highlighted := highlightMistakes input number in
      setMessage
        (to ("Wrong 😢 The number was <span class=" ++ quote ++ "font-bold"
             ++ quote ++ ">" ++ chunkDigits number 3
             ++ "</span><br/>Your input: <span>" ++ highlighted ++ "</span>")) >>
      setLevel (to 1%Z) >>
      setLastRoundFailed (to true)) >>
   setPhase (to Phase.result)) s.

Definition next (random : nat -> Q) : Action := fun s =>
  (blurActive >> setMessage (to "") >> startRound random (level s)) s.

(** A string is truthy when it is not empty. *)
Definition truthy (s : string) : bool := negb (String.eqb s "").

(** [onKeyDown] of the page's focusable [div]. *)
Definition handleKeyDown (random : nat -> Q) (key : string) : Action := fun s =>
  if negb (String.eqb key "Enter") then s
  else
    match phase s with
    | Phase.input => s
    | Phase.ready => start random s
    | Phase.result => next random s
    | Phase.show => s
    end.

(** The [keydown] listener that the effect puts on [window]. *)
Definition handler (random : nat -> Q) (key : string) : Action := fun s =>
  if negb (String.eqb key "Enter") then s
  else
    match phase s with
    | Phase.ready => start random s
    | Phase.input => if truthy (input s) then submit s else s
    | Phase.result => next random s
    | Phase.show => s
    end.

(** [onSubmit] of the form, [onChange] of the text field, [onClick] of
    the eye button. *)
Definition onSubmit : Action := fun s =>
  if truthy (input s) then submit s else s.
Definition onChange (value : string) : Action := setInput (to value).
Definition onMaskClick : Action := setMask negb.

(** The [disabled] attribute of the submit button and the [maxLength]
    attribute of the text field. *)
Definition submitDisabled (s : State) : bool :=
  negb (String.length (input s) =? String.length (number s))%nat.
Definition maxLength (s : State) : nat := String.length (number s).

(** The state of the first render. [window] is whether the page runs in
    a browser; [storage] is what [localStorage] holds then. *)
Definition init (window : bool) (storage : gmap string string) : State :=
  {| lastRoundFailed := false;
     phase := Phase.ready;
     level := 1;
     number := "";
     input := "";
     message := "";
     countdown := 0;
     mask := false;
     highStreak :=
       if window then
         match storage !! "highStreak" with
         | Some stored => if truthy stored then parseInt stored else Int 0
         | None => Int 0
         end
       else Int 0;
     timerRef := None;
     intervalRef := None;
     timers := ∅;
     nextTimerId := 1;
     localStorage := storage |}.

(** [Math.random()] returns a number in [[0, 1)]. *)
Definition draws (random : nat -> Q) : Prop :=
  forall i, (0 <= random i)%Q /\ (random i < 1)%Q.

(** What can happen to the page: the user acts on what the current
    phase renders, or a pending timer fires. The start button exists in
    phase [ready], the next button in phase [result], the form in phase
    [input]; the browser submits the form only through its enabled
    submit button, and the text field holds at most [maxLength]
    characters; the two [keydown] listeners are always there. A timeout
    leaves the timer table when it fires. *)
Inductive step : State -> State -> Prop :=
| step_start_click s random :
    phase s = Phase.ready -> draws random -> step s (start random s)
| step_next_click s random :
    phase s = Phase.result -> draws random -> step s (next random s)
| step_div_keydown s random key :
    draws random -> step s (handleKeyDown random key s)
| step_window_keydown s random key :
    draws random -> step s (handler random key s)
| step_form_submit s :
    phase s = Phase.input -> submitDisabled s = false -> step s (onSubmit s)
| step_change s value :
    phase s = Phase.input -> (String.length value <= maxLength s)%nat ->
    step s (onChange value s)
| step_mask_click s :
    phase s = Phase.input -> step s (onMaskClick s)
| step_timeout s id delay :
    timers s !! id = Some (Timeout delay) ->
    step s (expire (timers_update (delete id) s))
| step_interval s id delay :
    timers s !! id = Some (Interval delay) -> step s (tick s).

Definition reachable (window : bool) (storage : gmap string string)
  (s : State) : Prop :=
  rtc step (init window storage) s.

End Page.

(** ** The page of [src/packages/app/src/pages/index.tsx] *)

Module IndexPage.
Import JsString.

(** [chunkDigits(value, size = 3)]; [??] keeps [value] when there is no
    match. *)
Definition chunkDigits (value : string) (size : nat) : string :=
  match join " " <$> match_ size value with
  | Some chunks => chunks
  | None => value
  end.

End IndexPage.

(** *** The earlier page as a whole *)

(** The component of [index.tsx]: the same phases, timers and rounds as
    the later page, without the best streak, the mask, [lastRoundFailed]
    and the highlighted answer. [Phase], the three time constants,
    [generateNumber] and the body of [startRound] are the same text in
    both files and are taken from [Page]. *)
Module IndexGame.
Import JsString JsNumber.
Import Page(Timer, Timeout, Interval, generateNumber, duration, to, truthy,
            draws).
Module Phase := Page.Phase.

(** The six [useState] cells, the two timer [useRef] boxes and the
    browser's timers. *)
Record State := {
  phase : Phase.t;
  level : Z;
  number : string;
  input : string;
  message : string;
  countdown : Z;
  timerRef : option positive;
  intervalRef : option positive;
  timers : gmap positive Timer;
  nextTimerId : positive
}.

Definition Action : Type := State -> State.

Definition seq_ (a b : Action) : Action := fun s => b (a s).
Notation "a >> b" := (seq_ a b) (at level 61, left associativity).

Definition skip : Action := fun s => s.

Definition setPhase (f : Phase.t -> Phase.t) : Action := fun s =>
  {| phase := f (phase s); level := level s; number := number s;
     input := input s; message := message s; countdown := countdown s;
     timerRef := timerRef s; intervalRef := intervalRef s;
     timers := timers s; nextTimerId := nextTimerId s |}.

Definition setLevel (f : Z -> Z) : Action := fun s =>
  {| phase := phase s; level := f (level s); number := number s;
     input := input s; message := message s; countdown := countdown s;
     timerRef := timerRef s; intervalRef := intervalRef s;
     timers := timers s; nextTimerId := nextTimerId s |}.

Definition setNumber (f : string -> string) : Action := fun s =>
  {| phase := phase s; level := level s; number := f (number s);
     input := input s; message := message s; countdown := countdown s;
     timerRef := timerRef s; intervalRef := intervalRef s;
     timers := timers s; nextTimerId := nextTimerId s |}.

Definition setInput (f : string -> string) : Action := fun s =>
  {| phase := phase s; level := level s; number := number s;
     input := f (input s); message := message s; countdown := countdown s;
     timerRef := timerRef s; intervalRef := intervalRef s;
     timers := timers s; nextTimerId := nextTimerId s |}.

Definition setMessage (f : string -> string) : Action := fun s =>
  {| phase := phase s; level := level s; number := number s;
     input := input s; message := f (message s); countdown := countdown s;
     timerRef := timerRef s; intervalRef := intervalRef s;
     timers := timers s; nextTimerId := nextTimerId s |}.

Definition setCountdown (f : Z -> Z) : Action := fun s =>
  {| phase := phase s; level := level s; number := number s;
     input := input s; message := message s; countdown := f (countdown s);
     timerRef := timerRef s; intervalRef := intervalRef s;
     timers := timers s; nextTimerId := nextTimerId s |}.

Definition timerRef_current (f : option positive -> option positive) : Action := fun s =>
  {| phase := phase s; level := level s; number := number s;
     input := input s; message := message s; countdown := countdown s;
     timerRef := f (timerRef s); intervalRef := intervalRef s;
     timers := timers s; nextTimerId := nextTimerId s |}.

Definition intervalRef_current (f : option positive -> option positive) : Action := fun s =>
  {| phase := phase s; level := level s; number := number s;
     input := input s; message := message s; countdown := countdown s;
     timerRef := timerRef s; intervalRef := f (intervalRef s);
     timers := timers s; nextTimerId := nextTimerId s |}.

Definition timers_update (f : gmap positive Timer -> gmap positive Timer) : Action := fun s =>
  {| phase := phase s; level := level s; number := number s;
     input := input s; message := message s; countdown := countdown s;
     timerRef := timerRef s; intervalRef := intervalRef s;
     timers := f (timers s); nextTimerId := nextTimerId s |}.

Definition nextTimerId_update (f : positive -> positive) : Action := fun s =>
  {| phase := phase s; level := level s; number := number s;
     input := input s; message := message s; countdown := countdown s;
     timerRef := timerRef s; intervalRef := intervalRef s;
     timers := timers s; nextTimerId := f (nextTimerId s) |}.


Definition blurActive : Action := skip.

Definition clearTimeout (id : positive) : Action := timers_update (delete id).
Definition clearInterval (id : positive) : Action := timers_update (delete id).

Definition setTimer (t : Timer) (s : State) : positive * State :=
  (nextTimerId s,
   nextTimerId_update Pos.succ (timers_update (insert (nextTimerId s) t) s)).
Definition setTimeout (delay : Z) := setTimer (Timeout delay).
Definition setInterval (delay : Z) := setTimer (Interval delay).

Definition clearTimers : Action := fun s =>
  ((if timerRef s is Some id then clearTimeout id else skip) >>
   (if intervalRef s is Some id then clearInterval id else skip)) s.

Definition tick : Action := setCountdown (fun c => Z.max 0 (c - 1)).

Definition expire : Action :=
  clearTimers >> setCountdown (to 0%Z) >> setPhase (to Phase.input).

Definition startRound (random : nat -> Q) (nextLevel : Z) : Action := fun s =>
  let s := clearTimers s in
  let value := generateNumber random nextLevel in
  let duration := duration nextLevel in
  let s := setNumber (to value) s in
  let s := setInput (to "") s in
  let s := setPhase (to Phase.show) s in
  let s := setCountdown (to (Qceiling (inject_Z duration / 1000))) s in
  let '(id, s) := setInterval 1000 s in
  let s := intervalRef_current (to (Some id)) s in
  let '(id, s) := setTimeout duration s in
  timerRef_current (to (Some id)) s.

Definition start (random : nat -> Q) : Action :=
  blurActive >> setLevel (to 1%Z) >> setMessage (to "") >> startRound random 1.

Definition submit : Action := fun s =>
  (blurActive >>
   (if String.eqb (input s) (number s) then
      setMessage (to "Correct! Level up 🎉") >>
      setLevel (fun l => (l + 1)%Z)
    else
      setMessage
        (to ("Wrong 😢 The number was " ++ IndexPage.chunkDigits (number s) 3)) >>
      setLevel (to 1%Z)) >>
   setPhase (to Phase.result)) s.

Definition next (random : nat -> Q) : Action := fun s =>
  (blurActive >> setMessage (to "") >> startRound random (level s)) s.

Definition handleKeyDown (random : nat -> Q) (key : string) : Action := fun s =>
  if negb (String.eqb key "Enter") then s
  else
    match phase s with
    | Phase.input => s
    | Phase.ready => start random s
    | Phase.result => next random s
    | Phase.show => s
    end.

Definition handler (random : nat -> Q) (key : string) : Action := fun s =>
  if negb (String.eqb key "Enter") then s
  else
    match phase s with
    | Phase.ready => start random s
    | Phase.input => if truthy (input s) then submit s else s
    | Phase.result => next random s
    | Phase.show => s
    end.

Definition onSubmit : Action := fun s =>
  if truthy (input s) then submit s else s.
Definition onChange (value : string) : Action := setInput (to value).

(** The submit button is disabled on an empty input only, and the text
    field has no [maxLength]. *)
Definition submitDisabled (s : State) : bool := negb (truthy (input s)).

Definition init : State :=
  {| phase := Phase.ready;
     level := 1;
     number := "";
     input := "";
     message := "";
     countdown := 0;
     timerRef := None;
     intervalRef := None;
     timers := ∅;
     nextTimerId := 1 |}.

(** What can happen to the earlier page. *)
Inductive step : State -> State -> Prop :=
| step_start_click s random :
    phase s = Phase.ready -> draws random -> step s (start random s)
| step_next_click s random :
    phase s = Phase.result -> draws random -> step s (next random s)
| step_div_keydown s random key :
    draws random -> step s (handleKeyDown random key s)
| step_window_keydown s random key :
    draws random -> step s (handler random key s)
| step_form_submit s :
    phase s = Phase.input -> submitDisabled s = false -> step s (onSubmit s)
| step_change s value :
    phase s = Phase.input -> step s (onChange value s)
| step_timeout s id delay :
    timers s !! id = Some (Timeout delay) ->
    step s (expire (timers_update (delete id) s))
| step_interval s id delay :
    timers s !! id = Some (Interval delay) -> step s (tick s).

Definition reachable (s : State) : Prop := rtc step init s.

End IndexGame.

(** ** Reference notions of the specification *)

Module Spec.
Import JsString JsNumber Page.

(** [clamp(x, lo, hi)], in the specification's words. *)
Definition clamp (x lo hi : Z) : Z :=
  if (x <? lo)%Z then lo else if (hi <? x)%Z then hi else x.

(** A game in which every draw of [Math.random()] is 0.7, in a browser
    with an empty [localStorage]: the first round is shown ([shown], timers
    1 and 2), its timeout fires ([asked]), the player types the target
    ([typedRight]) or something else ([typedWrong]). *)
Definition sevens : nat -> Q := fun _ => 7 # 10.
Definition shown : State := start sevens (init true ∅).
Definition asked : State := expire (timers_update (delete 2%positive) shown).
Definition typedRight : State := onChange "7" asked.
Definition typedWrong : State := onChange "3" asked.

(** The player then presses Enter ([won], level 2), asks for the next round
    ([shownAgain], timers 3 and 4), waits for its timeout ([askedAgain]) and
    types the first of the two digits only ([halfTyped]). *)
Definition won : State := handler sevens "Enter" typedRight.
Definition shownAgain : State := next sevens won.
Definition askedAgain : State :=
  expire (timers_update (delete 4%positive) shownAgain).
Definition halfTyped : State := onChange "7" askedAgain.

(** What [localStorage] holds under the key [highStreak] reads back as a
    natural number (or is empty or absent): the page itself never stores
    anything else there. *)
Definition storage_ok (storage : gmap string string) : Prop :=
  forall stored,
    storage !! "highStreak" = Some stored ->
    truthy stored = true ->
    exists n, (0 <= n)%Z /\ parseInt stored = Int n.

(** The best streak is a natural number, and so is what is stored. *)
Definition streak_ok (s : State) : Prop :=
  (exists best, highStreak s = Int best /\ (0 <= best)%Z) /\
  storage_ok (localStorage s).

(** Every pending timer is the one that its ref box holds, and its id was
    handed out earlier. *)
Definition timers_owned (s : State) : Prop :=
  forall id t,
    timers s !! id = Some t ->
    (id < nextTimerId s)%positive /\
    match t with
    | Timeout _ => timerRef s = Some id
    | Interval _ => intervalRef s = Some id
    end.

(** No timer that was pending in [s] is pending in [s']. *)
Definition cancelled (s s' : State) : Prop :=
  forall id, is_Some (timers s !! id) -> timers s' !! id = None.

(** Exactly two timers are pending: the ticker and the timeout of a round
    at level [L], each held by its ref box. *)
Definition one_round_pending (L : Z) (s : State) : Prop :=
  exists i j,
    i <> j /\
    intervalRef s = Some i /\ timerRef s = Some j /\
    timers s = <[j := Timeout (duration L)]> {[i := Interval 1000]}.

(** The page between two handlers, as far as the round goes. *)
Record round_ok (s : State) : Prop := {
  ok_timers : timers_owned s;
  ok_countdown : (0 <= countdown s)%Z;
  ok_level : (1 <= level s)%Z;
  ok_target :
    phase s = Phase.show \/ phase s = Phase.input ->
    Z.of_nat (String.length (number s)) = level s /\
    all isDigit (number s) = true;
  ok_timeout :
    forall id delay, timers s !! id = Some (Timeout delay) -> phase s = Phase.show;
  ok_input : (String.length (input s) <= String.length (number s))%nat
}.

(** How one handler moves the best streak and the stored value: both stay,
    or both become a maximum with the old best streak. *)
Definition streak_moves (s s' : State) : Prop :=
  (highStreak s' = highStreak s /\ localStorage s' = localStorage s) \/
  (exists newStreak,
      highStreak s' = Math_max (highStreak s) (Int newStreak) /\
      localStorage s'
      = <["highStreak" := toString (Math_max (highStreak s) (Int newStreak))]>
          (localStorage s)).

End Spec.

(** ** What the page renders *)

Module View.
Import JsString JsNumber Page.

(** The element that puts the target on show ([chunkDigits(number)], in
    phase [show]) and the label of the button of the result screen.
    [None]: the element is not rendered. (The message of a lost round
    carries the target too: see [submit].) *)
Definition shownNumber (s : State) : option string :=
  match phase s with
  | Phase.show => Some (chunkDigits (number s) 3)
  | _ => None
  end.

Definition resultButton (s : State) : option string :=
  match phase s with
  | Phase.result => Some (if lastRoundFailed s then "Start Over" else "Next")
  | _ => None
  end.

End View.

(** ** Notions for the page as a state machine *)

Module Machine.
Import JsString JsNumber Page Spec.

(** The moves of the phase: it stays, or follows the cycle
    ready, show, input, result, show, ... *)
Definition phase_moves (p q : Phase.t) : Prop :=
  p = q \/
  (p = Phase.ready /\ q = Phase.show) \/
  (p = Phase.show /\ q = Phase.input) \/
  (p = Phase.input /\ q = Phase.result) \/
  (p = Phase.result /\ q = Phase.show).

(** The page between two handlers, phase by phase. *)
Record page_ok (s : State) : Prop := {
  pk_show :
    phase s = Phase.show ->
    one_round_pending (level s) s /\ input s = "" /\
    (countdown s <= (duration (level s) + 999) / 1000)%Z;
  pk_idle : phase s <> Phase.show -> timers s = ∅ /\ countdown s = 0%Z;
  pk_ready :
    phase s = Phase.ready -> level s = 1%Z /\ number s = "" /\ input s = "";
  pk_result :
    phase s = Phase.result ->
    (lastRoundFailed s = true /\ level s = 1%Z) \/
    (lastRoundFailed s = false /\ (2 <= level s)%Z /\
     message s = "Correct! Level up 🎉")
}.

(** The best streak is an integer that the level has not passed by more
    than one. *)
Definition streak_leads (s : State) : Prop :=
  exists best, highStreak s = Int best /\ (0 <= best)%Z /\ (level s <= best + 1)%Z.

(** What a page that starts now would take as its best streak. *)
Definition reloaded (s : State) : Number := highStreak (init true (localStorage s)).

(** [NaN], or an integer below [2^53] in absolute value: the numbers that
    [toString] writes as plain decimal digits (it turns to exponent
    notation from [1e21] on) and that [parseInt] reads back without
    rounding to a double. *)
Definition safeNumber (n : Number) : Prop :=
  match n with
  | NaN => True
  | Int z => (Z.abs z < 2 ^ 53)%Z
  end.

(** [generateNumber(length)] with the product [Math.random() * 10] left
    to the arithmetic of the engine: [times10 r] is the double that the
    product of the draw [r] by ten is rounded to. With the exact product
    it is [generateNumber]. *)
Definition generateNumberBy (times10 : Q -> Q) (random : nat -> Q)
    (length : Z) : string :=
  join "" (map (fun i => toString (Int (Qfloor (times10 (random i)))))
               (seq 0 (Z.to_nat length))).

(** A product by ten keeps the draws of [[0, 1)] in [[0, 10)]: the exact
    product does, and so does its rounding to the nearest double. *)
Definition product_in_range (times10 : Q -> Q) : Prop :=
  forall r, (0 <= r)%Q -> (r < 1)%Q -> (0 <= times10 r)%Q /\ (times10 r < 10)%Q.

(** The first round of a game: the start action on the first render, the
    timeout (timer 2) firing, the player typing the target and submitting
    through the form. *)
Definition firstShown random window storage : State :=
  start random (init window storage).
Definition firstAsked random window storage : State :=
  expire (timers_update (delete 2%positive) (firstShown random window storage)).
Definition firstAnswered random window storage : State :=
  onSubmit (onChange (number (firstAsked random window storage))
                     (firstAsked random window storage)).

(** A round answered through the form with [answer], and the round that
    the next action then starts. *)
Definition answered (answer : string) (s : State) : State :=
  onSubmit (onChange answer s).
Definition roundAfter random (answer : string) (s : State) : State :=
  next random (answered answer s).

End Machine.

(** ** Notions for comparing the two pages *)

Module Versions.

(** The state of the later page without the cells that the earlier page
    does not have. *)
Definition forget (s : Page.State) : IndexGame.State :=
  {| IndexGame.phase := Page.phase s;
     IndexGame.level := Page.level s;
     IndexGame.number := Page.number s;
     IndexGame.input := Page.input s;
     IndexGame.message := Page.message s;
     IndexGame.countdown := Page.countdown s;
     IndexGame.timerRef := Page.timerRef s;
     IndexGame.intervalRef := Page.intervalRef s;
     IndexGame.timers := Page.timers s;
     IndexGame.nextTimerId := Page.nextTimerId s |}.

(** A state of the earlier page without its message. *)
Definition erase (s : IndexGame.State) : IndexGame.State :=
  IndexGame.setMessage (fun _ => "") s.

(** The earlier page is where the later page is, but for the message. *)
Definition matches (s : Page.State) (t : IndexGame.State) : Prop :=
  erase t = erase (forget s).

End Versions.

(** * Facts *)

(** ** Slices and the matches of [.{1,size}] *)

Module JsStringFacts.
Import JsString.

Lemma append_cons c (s t : string) : String c s ++ t = String c (s ++ t).
Proof. reflexivity. Qed.

Lemma append_nil (t : string) : "" ++ t = t.
Proof. reflexivity. Qed.

Lemma take_drop n s : take n s ++ drop n s = s.
Proof.
  revert s; induction n as [|n IH]; intros [|c s]; simpl; auto.
  now rewrite append_cons, IH.
Qed.

Lemma length_take n s : String.length (take n s) = Nat.min n (String.length s).
Proof. revert s; induction n as [|n IH]; intros [|c s]; simpl; auto. Qed.

Lemma length_drop n s : String.length (drop n s) = (String.length s - n)%nat.
Proof. revert s; induction n as [|n IH]; intros [|c s]; simpl; auto. Qed.

Lemma length_app (s t : string) :
  String.length (s ++ t) = (String.length s + String.length t)%nat.
Proof. induction s as [|c s IH]; rewrite ?append_cons; simpl; auto. Qed.

Lemma all_app p (s t : string) : all p (s ++ t) = all p s && all p t.
Proof.
  induction s as [|c s IH]; rewrite ?append_cons; simpl; auto.
  now rewrite IH, andb_assoc.
Qed.

Lemma all_take p n s : all p s = true -> all p (take n s) = true.
Proof.
  revert s; induction n as [|n IH]; intros [|c s]; simpl; auto.
  intros [Hc Hs]%andb_prop. now rewrite Hc, IH.
Qed.

Lemma all_drop p n s : all p s = true -> all p (drop n s) = true.
Proof.
  revert s; induction n as [|n IH]; intros [|c s]; simpl; auto.
  intros [_ Hs]%andb_prop. auto.
Qed.

Lemma all_impl (p q : ascii -> bool) s :
  (forall c, p c = true -> q c = true) -> all p s = true -> all q s = true.
Proof.
  intros Hpq; induction s as [|c s IH]; simpl; auto.
  intros [Hc Hs]%andb_prop. now rewrite (Hpq _ Hc), IH.
Qed.

Lemma remove_app x (s t : string) : remove x (s ++ t) = remove x s ++ remove x t.
Proof.
  induction s as [|c s IH]; rewrite ?append_cons; simpl; auto.
  destruct (Ascii.eqb c x); rewrite ?append_cons, IH; reflexivity.
Qed.

Lemma remove_absent x s :
  all (isNot x) s = true -> remove x s = s.
Proof.
  induction s as [|c s IH]; simpl; auto.
  intros [Hc Hs]%andb_prop. apply negb_true_iff in Hc. now rewrite Hc, IH.
Qed.

Lemma append_assoc (s t u : string) : (s ++ t) ++ u = s ++ t ++ u.
Proof. induction s as [|c s IH]; [reflexivity | rewrite !append_cons; congruence]. Qed.

Lemma append_empty_r (s : string) : s ++ "" = s.
Proof. induction s as [|c s IH]; [reflexivity | rewrite append_cons; congruence]. Qed.

Lemma concat_cons x xs : String.concat "" (x :: xs) = x ++ String.concat "" xs.
Proof. destruct xs; simpl; [now rewrite append_empty_r | reflexivity]. Qed.

(** *** Facts about [.{1,size}] on a string without line terminators *)

Lemma dotRun_plain room s : all plain s = true -> dotRun room s = take room s.
Proof.
  revert s; induction room as [|k IH]; intros [|c s]; simpl; auto.
  intros [Hc Hs]%andb_prop. apply negb_true_iff in Hc. now rewrite Hc, IH.
Qed.

Lemma matchAll_plain size c s :
  all plain (String c s) = true ->
  matchAll (S size) (String c s)
  = take (S size) (String c s) :: matchAll (S size) (drop (S size) (String c s)).
Proof.
  simpl. intros [Hc Hs]%andb_prop. apply negb_true_iff in Hc.
  rewrite matchAll_equation_2, Hc. simpl.
  rewrite (dotRun_plain _ _ Hs), length_take.
  destruct (Nat.le_gt_cases size (String.length s)) as [Hle|Hgt].
  - now rewrite Nat.min_l.
  - rewrite Nat.min_r by lia.
    assert (Hd : forall n, (String.length s <= n)%nat -> drop n s = "").
    { clear. induction s as [|c s IH]; intros [|n]; simpl; auto; try lia.
      intros; apply IH; lia. }
    now rewrite !Hd by lia.
Qed.

(** On a string without line terminators the matches are the successive
    blocks of [size] characters: nothing is skipped. *)
Lemma concat_matchAll_plain size s :
  all plain s = true -> String.concat "" (matchAll (S size) s) = s.
Proof.
  remember (String.length s) as n eqn:Hn. revert s Hn.
  induction n as [n IH] using lt_wf_ind. intros [|c s] Hn Hs.
  - now rewrite matchAll_equation_1.
  - rewrite (matchAll_plain _ _ _ Hs).
    set (hd := take (S size) (String c s)).
    set (tl := drop (S size) (String c s)).
    assert (Htl : String.concat "" (matchAll (S size) tl) = tl).
    { apply (IH (String.length tl)); auto.
      - subst tl n. simpl. rewrite length_drop. lia.
      - subst tl. now apply all_drop. }
    rewrite concat_cons, Htl. apply take_drop.
Qed.

Lemma matchAll_head size s :
  match matchAll size s with
  | [] => True
  | m :: _ => exists c m', m = String c m'
  end.
Proof.
  funelim (matchAll size s); [exact I|].
  destruct (isLineTerminator c); eauto.
Qed.

(** When the length is a multiple of the width, every block is full. *)
Lemma matchAll_full_blocks size k s :
  all plain s = true ->
  String.length s = (k * S size)%nat ->
  Forall (fun g => String.length g = S size) (matchAll (S size) s).
Proof.
  revert s; induction k as [|k IH]; intros [|c s] Hs Hlen; try discriminate.
  - rewrite matchAll_equation_1. constructor.
  - rewrite (matchAll_plain _ _ _ Hs). constructor.
    + rewrite length_take. lia.
    + apply IH; [now apply all_drop|]. rewrite length_drop. lia.
Qed.

(** Joining the blocks with a separator that the string does not
    contain, then removing the separator, gives the string back. *)
Lemma remove_join_matchAll x size s :
  all plain s = true ->
  all (isNot x) s = true ->
  remove x (String.concat (String x "") (matchAll (S size) s)) = s.
Proof.
  remember (String.length s) as n eqn:Hn. revert s Hn.
  induction n as [n IH] using lt_wf_ind. intros [|c s] Hn Hs Hx.
  - now rewrite matchAll_equation_1.
  - rewrite (matchAll_plain _ _ _ Hs).
    set (hd := take (S size) (String c s)).
    set (tl := drop (S size) (String c s)).
    assert (Htl : remove x (String.concat (String x "") (matchAll (S size) tl)) = tl).
    { apply (IH (String.length tl)); auto.
      - subst tl n. simpl. rewrite length_drop. lia.
      - subst tl. now apply all_drop.
      - subst tl. now apply all_drop. }
    assert (Hhd : remove x hd = hd).
    { apply remove_absent. subst hd. now apply all_take. }
    pose proof (take_drop (S size) (String c s)) as Htd. fold hd tl in Htd.
    destruct (matchAll (S size) tl) as [|m ms] eqn:Hm.
    + simpl in Htl. simpl String.concat. rewrite Hhd.
      now rewrite <- Htl, append_empty_r in Htd.
    + change (String.concat (String x "") (hd :: m :: ms))
        with (hd ++ String x "" ++ String.concat (String x "") (m :: ms)).
      rewrite !remove_app, Hhd, Htl. simpl remove. rewrite Ascii.eqb_refl.
      exact Htd.
Qed.

End JsStringFacts.

(** ** Grouping the digits *)

Module ChunkFacts.
Import JsString JsStringFacts Page.

Lemma digit_plain c : isDigit c = true -> plain c = true.
Proof. destruct c as [[] [] [] [] [] [] [] []]; vm_compute; congruence. Qed.

Lemma digit_isNot_comma c : isDigit c = true -> isNot "," c = true.
Proof. destruct c as [[] [] [] [] [] [] [] []]; vm_compute; congruence. Qed.

Lemma digit_isNot_space c : isDigit c = true -> isNot " " c = true.
Proof. destruct c as [[] [] [] [] [] [] [] []]; vm_compute; congruence. Qed.

(** Whatever the string, the result is the first slice and the matches
    in the rest, joined by commas. *)
Lemma chunkDigits_join value size :
  Page.chunkDigits value size
  = join "," (take (firstGroupLength value size) value
                :: matchAll size (drop (firstGroupLength value size) value)).
Proof.
  unfold Page.chunkDigits, match_.
  set (n := firstGroupLength value size).
  pose proof (matchAll_head size (drop n value)) as Hhead.
  destruct (matchAll size (drop n value)) as [|m ms]; [reflexivity|].
  destruct Hhead as (c & m' & ->).
  destruct ms; reflexivity.
Qed.

Lemma firstGroupLength_rest (s : string) :
  s <> "" ->
  let n := firstGroupLength s 3 in
  (1 <= n <= 3)%nat /\ (n <= String.length s)%nat /\
  exists k, (String.length s - n = k * 3)%nat.
Proof.
  intros Hs. unfold firstGroupLength.
  assert (0 < String.length s)%nat as Hlen by (destruct s; simpl; [congruence|lia]).
  pose proof (Nat.div_mod_eq (String.length s) 3) as Hdm.
  pose proof (Nat.mod_upper_bound (String.length s) 3) as Hub.
  destruct (Nat.eqb_spec (String.length s mod 3) 0) as [H0|H0]; cbv zeta.
  - repeat split; try lia. exists (String.length s / 3 - 1)%nat. lia.
  - repeat split; try lia. exists (String.length s / 3)%nat. lia.
Qed.

(** C4. For every digit string [s], [chunkDigits s 3] is the comma-joined
    list of groups that cuts [s] from the right in threes: the groups
    concatenate to [s], the first one (there is one unless [s] is empty)
    has [len s mod 3] characters, or 3 when 3 divides [len s], and every
    other group has exactly 3; and [chunkDigits "1234567" 3] is
    ["1,234,567"]. *)
Theorem chunkDigits_groups_from_right :
  (forall s : string,
      all isDigit s = true ->
      exists groups : list string,
        Page.chunkDigits s 3 = join "," groups /\
        String.concat "" groups = s /\
        match groups with
        | [] => s = ""
        | first :: rest =>
            String.length first
            = (if (String.length s mod 3 =? 0)%nat then 3
               else String.length s mod 3)%nat /\
            Forall (fun g => String.length g = 3%nat) rest
        end) /\
  Page.chunkDigits "1234567" 3 = "1,234,567".
Proof.
  split; [|reflexivity].
  intros s Hdigits.
  destruct (String.eqb_spec s "") as [->|Hne]; [exists []; easy|].
  pose proof (all_impl _ _ s digit_plain Hdigits) as Hplain.
  destruct (firstGroupLength_rest s Hne) as (Hn & Hle & k & Hk).
  exists (take (firstGroupLength s 3) s :: matchAll 3 (drop (firstGroupLength s 3) s)).
  split; [apply chunkDigits_join|]. split; [|split].
  - rewrite concat_cons, concat_matchAll_plain by now apply all_drop.
    apply take_drop.
  - rewrite length_take. unfold firstGroupLength in *. lia.
  - apply (matchAll_full_blocks 2 k); [now apply all_drop|].
    rewrite length_drop. exact Hk.
Qed.

Lemma chunkDigits_groups_from_right_witness :
  exists groups : list string,
    Page.chunkDigits "20240229" 3 = join "," groups /\
    String.concat "" groups = "20240229" /\
    match groups with
    | [] => False
    | first :: rest =>
        String.length first = 2%nat /\
        Forall (fun g => String.length g = 3%nat) rest
    end.
Proof.
  destruct (proj1 chunkDigits_groups_from_right "20240229" eq_refl)
    as (groups & Hjoin & Hcat & Hshape).
  exists groups. split; [exact Hjoin|]. split; [exact Hcat|].
  destruct groups; [discriminate Hshape | exact Hshape].
Defined.

(** C10, as stated, fails: a line feed is not matched by [.], so both
    versions drop it from a string that holds one. *)
Lemma chunkDigits_drops_line_feed :
  Page.chunkDigits twoLines 3 = "ab,cd" /\
  remove "," (Page.chunkDigits twoLines 3) <> twoLines /\
  IndexPage.chunkDigits twoLines 3 = "ab cd" /\
  remove " " (IndexPage.chunkDigits twoLines 3) <> twoLines.
Proof. vm_compute. repeat split; discriminate. Qed.

(** The earlier page cuts from the left and joins with spaces. *)
Example chunkDigits_index_from_left :
  IndexPage.chunkDigits "1234567" 3 = "123 456 7".
Proof. reflexivity. Qed.

(** C10, amended. For every string [s] that holds no line terminator and
    no separator character, removing the commas from the result of
    [src/unnamed/part_000]'s [chunkDigits], or the spaces from the result
    of [index.tsx]'s, gives exactly [s]; every digit string is such a
    string for both; and both map the empty string to itself. *)
Theorem chunkDigits_preserves_content :
  (forall s : string,
      all plain s = true -> all (isNot ",") s = true ->
      remove "," (Page.chunkDigits s 3) = s) /\
  (forall s : string,
      all plain s = true -> all (isNot " ") s = true ->
      remove " " (IndexPage.chunkDigits s 3) = s) /\
  (forall s : string,
      all isDigit s = true ->
      all plain s = true /\ all (isNot ",") s = true /\ all (isNot " ") s = true) /\
  Page.chunkDigits "" 3 = "" /\ IndexPage.chunkDigits "" 3 = "".
Proof.
  split; [|split; [|split; [|split; reflexivity]]]; cycle 2.
  - intros s Hdigits.
    split; [|split]; revert Hdigits; apply all_impl;
      auto using digit_plain, digit_isNot_comma, digit_isNot_space.
  - intros s Hplain Hsep. rewrite chunkDigits_join.
    set (n := firstGroupLength s 3).
    pose proof (remove_join_matchAll "," 2 (drop n s)
                  (all_drop _ n _ Hplain) (all_drop _ n _ Hsep)) as Hrest.
    assert (Hfirst : remove "," (take n s) = take n s)
      by (apply remove_absent; now apply all_take).
    destruct (matchAll 3 (drop n s)) as [|m ms] eqn:Hm.
    + simpl in Hrest. unfold join; simpl String.concat. rewrite Hfirst.
      rewrite <- (take_drop n s) at 2. now rewrite <- Hrest, append_empty_r.
    + unfold join.
      change (String.concat "," (take n s :: m :: ms))
        with (take n s ++ "," ++ String.concat "," (m :: ms)).
      rewrite !remove_app, Hfirst, Hrest. apply take_drop.
  - intros s Hplain Hsep. unfold IndexPage.chunkDigits, match_.
    pose proof (remove_join_matchAll " " 2 s Hplain Hsep) as Hall.
    destruct (matchAll 3 s) as [|m ms] eqn:Hm; [|exact Hall].
    simpl. now apply remove_absent.
Qed.

Lemma chunkDigits_preserves_content_witness :
  remove "," (Page.chunkDigits "0042" 3) = "0042" /\
  remove " " (IndexPage.chunkDigits "0042" 3) = "0042".
Proof.
  split.
  - apply (proj1 chunkDigits_preserves_content "0042"); reflexivity.
  - apply (proj1 (proj2 chunkDigits_preserves_content) "0042"); reflexivity.
Defined.

End ChunkFacts.

(** ** Submitting an answer *)

Module SubmitFacts.
Import JsString JsNumber Page Spec.

Lemma split_chars_lookup (s : string) i :
  split_chars s !! i = (fun c => String c "") <$> at_ s i.
Proof.
  revert i; induction s as [|c s IH]; intros [|i]; simpl; auto.
Qed.

Lemma length_split_chars (s : string) :
  length (split_chars s) = String.length s.
Proof. induction s as [|c s IH]; simpl; auto. Qed.

Lemma mark_changes digit : mark digit <> digit.
Proof.
  intros H. apply (f_equal String.length) in H. unfold mark in H.
  rewrite !JsStringFacts.length_app in H. simpl in H. lia.
Qed.

(** In phase [input] the form and the Enter key both run [submit] on a
    non-empty input. *)
Lemma submit_routes (s : State) :
  phase s = Phase.input ->
  input s <> "" ->
  onSubmit s = submit s /\ forall random, handler random "Enter" s = submit s.
Proof.
  intros Hphase Hinput. unfold onSubmit, handler, truthy.
  apply String.eqb_neq in Hinput. rewrite Hphase, Hinput. auto.
Qed.

(** C1. In phase [input], submitting an input equal to the target (through
    the form or the Enter key, which both run [submit]) moves to phase
    [result], clears [lastRoundFailed], adds exactly 1 to the level, and
    makes the best streak the maximum of the old best streak and the level
    before the increment. *)
Theorem submit_correct_levels_up (s : State) :
  phase s = Phase.input ->
  input s = number s ->
  phase (submit s) = Phase.result /\
  lastRoundFailed (submit s) = false /\
  level (submit s) = (level s + 1)%Z /\
  highStreak (submit s) = Math_max (highStreak s) (Int (level s)) /\
  (forall best, highStreak s = Int best ->
                highStreak (submit s) = Int (Z.max best (level s))) /\
  (input s <> "" ->
   onSubmit s = submit s /\ forall random, handler random "Enter" s = submit s).
Proof.
  intros Hphase Heq. split; [|split; [|split; [|split; [|split]]]];
    try (unfold submit, seq_, blurActive, skip, to;
         rewrite Heq, String.eqb_refl; cbn; reflexivity).
  - intros best Hbest. unfold submit, seq_, blurActive, skip, to.
    rewrite Heq, String.eqb_refl. cbn. now rewrite Hbest.
  - now apply submit_routes.
Qed.

Lemma submit_correct_levels_up_witness :
  phase (submit typedRight) = Phase.result /\
  lastRoundFailed (submit typedRight) = false /\
  level (submit typedRight) = 2%Z /\
  highStreak (submit typedRight) = Int 1.
Proof.
  destruct (submit_correct_levels_up typedRight eq_refl eq_refl)
    as (Hp & Hf & Hl & Hmax & _ & _).
  split; [exact Hp|]. split; [exact Hf|]. split; [exact Hl | exact Hmax].
Defined.

Lemma at_lt (s : string) i : is_Some (at_ s i) <-> (i < String.length s)%nat.
Proof.
  revert i; induction s as [|c s IH]; intros [|i]; simpl.
  - split; [intros [? [=]] | lia].
  - split; [intros [? [=]] | lia].
  - split; [lia | eauto].
  - rewrite IH. lia.
Qed.

(** The entry of [highlightEntries] at a position of the input. *)
Lemma highlightEntries_at (input correct : string) i c :
  at_ input i = Some c ->
  (at_ correct i <> Some c ->
   highlightEntries input correct !! i = Some (mark (String c ""))) /\
  (at_ correct i = Some c ->
   highlightEntries input correct !! i = Some (String c "")).
Proof.
  intros Hc. unfold highlightEntries.
  rewrite list_lookup_imap, split_chars_lookup, Hc. simpl.
  destruct (at_ correct i) as [d|] eqn:Hd; simpl.
  - destruct (decide (d = c)) as [->|Hdc].
    + rewrite bool_decide_eq_true_2 by reflexivity. split; congruence.
    + rewrite bool_decide_eq_false_2 by congruence. split; congruence.
  - split; congruence.
Qed.

(** With an input of the target's length, every position of the target
    has its entry. *)
Lemma highlightEntries_full (input correct : string) i d :
  String.length input = String.length correct ->
  at_ correct i = Some d ->
  exists c,
    at_ input i = Some c /\
    highlightEntries input correct !! i
    = Some (if bool_decide (c = d) then String c "" else mark (String c "")).
Proof.
  intros Hlen Hd.
  assert (is_Some (at_ input i)) as [c Hc].
  { apply at_lt. rewrite Hlen. apply at_lt. eauto. }
  exists c. split; [exact Hc|].
  destruct (highlightEntries_at input correct i c Hc) as [Hflag Hbare].
  destruct (decide (c = d)) as [->|Hcd].
  - rewrite bool_decide_eq_true_2 by reflexivity. auto.
  - rewrite bool_decide_eq_false_2 by assumption. apply Hflag. congruence.
Qed.

Lemma submit_wrong_state (s : State) :
  input s <> number s ->
  phase (submit s) = Phase.result /\
  lastRoundFailed (submit s) = true /\
  level (submit s) = 1%Z /\
  exists before,
    message (submit s)
    = before ++ highlightMistakes (input s) (number s) ++ "</span>".
Proof.
  intros Hne. unfold submit, seq_, blurActive, skip, to.
  apply String.eqb_neq in Hne. rewrite Hne. cbn.
  split; [reflexivity|]. split; [reflexivity|]. split; [reflexivity|].
  eexists. rewrite <- !JsStringFacts.append_assoc. reflexivity.
Qed.

(** What the code keeps of the second claim, position by position of the
    input. In phase [input], submitting an input that differs from the target
    (through the form or the Enter key, which both run [submit]) moves to
    phase [result], sets [lastRoundFailed], resets the level to 1, and puts
    in the message the highlighted input: one entry per character of the
    input, the character wrapped in the red [span] where it differs from
    the target's character at that position (or the target has none), the
    bare character where they agree. When the input has the target's
    length, as the submit button requires, these are all the positions of
    the target. *)
Theorem submit_wrong_highlights (s : State) :
  phase s = Phase.input ->
  input s <> number s ->
  phase (submit s) = Phase.result /\
  lastRoundFailed (submit s) = true /\
  level (submit s) = 1%Z /\
  (exists before,
      message (submit s)
      = before ++ highlightMistakes (input s) (number s) ++ "</span>") /\
  highlightMistakes (input s) (number s)
  = join "" (highlightEntries (input s) (number s)) /\
  length (highlightEntries (input s) (number s)) = String.length (input s) /\
  (forall i c,
      at_ (input s) i = Some c ->
      (at_ (number s) i <> Some c ->
       highlightEntries (input s) (number s) !! i = Some (mark (String c ""))) /\
      (at_ (number s) i = Some c ->
       highlightEntries (input s) (number s) !! i = Some (String c ""))) /\
  (String.length (input s) = String.length (number s) ->
   forall i d,
     at_ (number s) i = Some d ->
     exists c,
       at_ (input s) i = Some c /\
       highlightEntries (input s) (number s) !! i
       = Some (if bool_decide (c = d) then String c "" else mark (String c ""))) /\
  (forall digit, mark digit <> digit) /\
  (input s <> "" ->
   onSubmit s = submit s /\ forall random, handler random "Enter" s = submit s).
Proof.
  intros Hphase Hne.
  destruct (submit_wrong_state s Hne) as (Hp & Hf & Hl & Hm).
  do 4 (split; [assumption|]). split; [reflexivity|]. split.
  { unfold highlightEntries. now rewrite length_imap, length_split_chars. }
  split; [intros i c; apply highlightEntries_at|].
  split; [intros Hlen i d; now apply highlightEntries_full|].
  split; [exact mark_changes | now apply submit_routes].
Qed.

Lemma submit_wrong_highlights_witness :
  phase (submit typedWrong) = Phase.result /\
  lastRoundFailed (submit typedWrong) = true /\
  level (submit typedWrong) = 1%Z /\
  highlightEntries (input typedWrong) (number typedWrong) !! 0%nat
  = Some (mark "3").
Proof.
  destruct (submit_wrong_highlights typedWrong eq_refl) as
    (Hp & Hf & Hl & _ & _ & _ & Hat & _ & _ & _).
  { vm_compute. discriminate. }
  split; [exact Hp|]. split; [exact Hf|]. split; [exact Hl|].
  apply (proj1 (Hat 0%nat "3"%char eq_refl)). vm_compute. discriminate.
Defined.

End SubmitFacts.

(** ** Generating the target *)

Module GenerateFacts.
Import JsString JsStringFacts JsNumber Page Spec.

Lemma digit_toString (z : Z) :
  (0 <= z <= 9)%Z ->
  exists c, toString (Int z) = String c "" /\ isDigit c = true.
Proof.
  intros Hz.
  assert (z = 0 \/ z = 1 \/ z = 2 \/ z = 3 \/ z = 4 \/
          z = 5 \/ z = 6 \/ z = 7 \/ z = 8 \/ z = 9)%Z as Hcases by lia.
  repeat (destruct Hcases as [->|Hcases]; [eexists; split; reflexivity|]).
  subst z. eexists; split; reflexivity.
Qed.

(** [Math.floor(Math.random() * 10)] is one of 0, ..., 9. *)
Lemma floor_draw (q : Q) :
  (0 <= q)%Q -> (q < 1)%Q -> (0 <= Qfloor (q * 10) <= 9)%Z.
Proof.
  intros H0 H1. split.
  - change 0%Z with (Qfloor 0). apply Qfloor_resp_le.
    rewrite <- (Qmult_0_l 10). apply Qmult_le_compat_r; [exact H0 | discriminate].
  - assert (Qfloor (q * 10) < 10)%Z; [|lia].
    rewrite Zlt_Qlt. eapply Qle_lt_trans; [apply Qfloor_le|].
    change (inject_Z 10) with (1 * 10)%Q.
    apply Qmult_lt_compat_r; [reflexivity | exact H1].
Qed.

Lemma join_digits (l : list string) :
  Forall (fun x => exists c, x = String c "" /\ isDigit c = true) l ->
  String.length (join "" l) = length l /\ all isDigit (join "" l) = true.
Proof.
  unfold join. induction 1 as [|x l (c & -> & Hc) _ [IHlen IHall]].
  - split; reflexivity.
  - rewrite concat_cons, append_cons, append_nil. simpl.
    now rewrite IHlen, Hc, IHall.
Qed.

Lemma generateNumber_digits (random : nat -> Q) (length : Z) :
  draws random ->
  String.length (generateNumber random length) = Z.to_nat length /\
  all isDigit (generateNumber random length) = true.
Proof.
  intros Hdraws. unfold generateNumber.
  destruct (join_digits
              (map (fun i => toString (Int (Qfloor (random i * 10))))
                   (seq 0 (Z.to_nat length)))) as [Hlen Hall].
  - apply Forall_map, Forall_forall. intros i _.
    destruct (Hdraws i) as [H0 H1]. apply digit_toString, floor_draw; assumption.
  - now rewrite Hlen, length_map, length_seq.
Qed.

End GenerateFacts.

(** ** Rounds and timers *)

Module RoundFacts.
Import JsString JsNumber Page Spec.

Lemma clearTimers_eq (s : State) :
  clearTimers s
  = timers_update
      (fun m => (if intervalRef s is Some i then delete i else id)
                  ((if timerRef s is Some j then delete j else id) m)) s.
Proof. destruct s as [? ? ? ? ? ? ? ? ? [j|] [i|] ? ? ?]; reflexivity. Qed.

(** Under [timers_owned], clearing the timers empties the table. *)
Lemma clearTimers_empty (s : State) :
  timers_owned s -> timers (clearTimers s) = ∅.
Proof.
  intros Hown. rewrite clearTimers_eq. cbn. apply map_eq; intros id.
  rewrite lookup_empty.
  destruct (timers s !! id) as [t|] eqn:Ht.
  - destruct (Hown id t Ht) as [_ Href].
    destruct t; rewrite Href.
    + destruct (intervalRef s); cbn;
        rewrite ?lookup_delete; repeat case_decide; congruence.
    + destruct (timerRef s); cbn;
        rewrite ?lookup_delete; repeat case_decide; congruence.
  - destruct (intervalRef s), (timerRef s); cbn;
      rewrite ?lookup_delete; repeat case_decide; auto.
Qed.

Lemma clearTimers_owned (s : State) :
  timers_owned s -> clearTimers s = timers_update (to ∅) s.
Proof.
  intros Hown. pose proof (clearTimers_empty s Hown) as Hempty.
  rewrite clearTimers_eq in *. unfold timers_update, to in *. cbn in Hempty.
  now rewrite Hempty.
Qed.

Lemma clearTimers_owned_expire (s : State) :
  timers_owned s ->
  expire s = setPhase (to Phase.input) (setCountdown (to 0%Z) (timers_update (to ∅) s)).
Proof. intros Hown. unfold expire, seq_, focusInput, skip. now rewrite clearTimers_owned. Qed.

(** What [startRound] leaves behind, field by field. *)
Lemma startRound_eq random L (s : State) :
  timers_owned s ->
  startRound random L s
  = {| lastRoundFailed := lastRoundFailed s;
       phase := Phase.show;
       level := level s;
       number := generateNumber random L;
       input := "";
       message := message s;
       countdown := Qceiling (inject_Z (duration L) / 1000);
       mask := mask s;
       highStreak := highStreak s;
       timerRef := Some (Pos.succ (nextTimerId s));
       intervalRef := Some (nextTimerId s);
       timers := <[Pos.succ (nextTimerId s) := Timeout (duration L)]>
                   {[nextTimerId s := Interval 1000]};
       nextTimerId := Pos.succ (Pos.succ (nextTimerId s));
       localStorage := localStorage s |}.
Proof.
  intros Hown. unfold startRound. rewrite (clearTimers_owned s Hown). reflexivity.
Qed.

Lemma duration_bounds L : (1200 <= duration L <= 6000)%Z.
Proof. unfold duration, MAX_TIME, MIN_TIME, TIME_PER_DIGIT. lia. Qed.

(** [Math.ceil(d / 1000)] on an integer [d], by integer division. *)
Lemma ceil_thousandth (d : Z) :
  Qceiling (inject_Z d / 1000) = ((d + 999) / 1000)%Z.
Proof.
  unfold Qceiling, Qdiv, Qmult, Qinv, inject_Z, Qopp, Qfloor. cbn.
  rewrite Z.mul_1_r.
  pose proof (Z.div_mod (- d) 1000 ltac:(lia)) as H1.
  pose proof (Z.mod_pos_bound (- d) 1000 ltac:(lia)) as H2.
  change (Z.pos (1 * 1000)) with 1000%Z.
  apply Z.div_unique with (r := (999 - (- d) mod 1000)%Z); [left|]; lia.
Qed.

Lemma countdown_start_nonneg L : (0 <= Qceiling (inject_Z (duration L) / 1000))%Z.
Proof.
  rewrite ceil_thousandth. pose proof (duration_bounds L).
  apply Z.div_pos; lia.
Qed.

Ltac fields :=
  cbn [lastRoundFailed phase level number input message countdown mask
       highStreak timerRef intervalRef timers nextTimerId localStorage
       setLastRoundFailed setPhase setLevel setNumber setInput setMessage
       setCountdown setMask setHighStreak timerRef_current intervalRef_current
       timers_update nextTimerId_update localStorage_update init] in *.

Ltac run_handlers :=
  unfold handler, handleKeyDown, onSubmit, onChange, onMaskClick, submit,
    start, next, tick, expire, updateHighStreak, seq_, blurActive, focusInput,
    skip, to in *.

Lemma init_round_ok window storage : round_ok (init window storage).
Proof.
  constructor; fields.
  - intros id t Ht. fields. now rewrite lookup_empty in Ht.
  - lia.
  - lia.
  - intros [H|H]; discriminate.
  - intros id delay Ht. now rewrite lookup_empty in Ht.
  - lia.
Qed.

Lemma startRound_round_ok random L (s : State) :
  draws random -> timers_owned s -> (1 <= L)%Z -> level s = L ->
  round_ok (startRound random L s).
Proof.
  intros Hdraws Hown HL Hlevel. rewrite (startRound_eq _ _ _ Hown).
  destruct (GenerateFacts.generateNumber_digits random L Hdraws) as [Hlen Hdig].
  constructor; fields.
  - intros id t. fields. rewrite lookup_insert. case_decide as Hid.
    + intros [= <-]. subst id. split; [lia | reflexivity].
    + rewrite lookup_singleton. case_decide as Hid'; [|discriminate].
      intros [= <-]. subst id. split; [lia | reflexivity].
  - apply countdown_start_nonneg.
  - lia.
  - intros _. rewrite Hlen. split; [lia | exact Hdig].
  - reflexivity.
  - simpl. lia.
Qed.

Lemma tick_round_ok (s : State) : round_ok s -> round_ok (tick s).
Proof.
  intros [Hown Hc Hl Ht Hto Hi]. run_handlers. constructor; fields; auto. lia.
Qed.

Lemma expire_round_ok (s : State) id delay :
  round_ok s -> timers s !! id = Some (Timeout delay) ->
  round_ok (expire (timers_update (delete id) s)).
Proof.
  intros [Hown Hc Hl Ht Hto Hi] Hid.
  assert (Hown' : timers_owned (timers_update (delete id) s)).
  { intros id' t'. fields. rewrite lookup_delete. case_decide; [discriminate|].
    apply Hown. }
  run_handlers. rewrite (clearTimers_owned _ Hown'). unfold to.
  constructor; fields; auto; try lia.
  - intros id' t'. fields. now rewrite lookup_empty.
  - intros _. apply Ht. left. eapply Hto, Hid.
  - intros id' d'. now rewrite lookup_empty.
Qed.

Lemma submit_round_ok (s : State) :
  round_ok s -> phase s = Phase.input -> round_ok (submit s).
Proof.
  intros [Hown Hc Hl Ht Hto Hi] Hphase. run_handlers.
  assert (Hnone : forall id delay, timers s !! id = Some (Timeout delay) -> False).
  { intros id delay Hid. rewrite (Hto id delay Hid) in Hphase. discriminate. }
  destruct (String.eqb (input s) (number s)); constructor; fields; auto; try lia;
    try (intros [H|H]; discriminate);
    try (intros id delay Hid; destruct (Hnone id delay Hid)).
Qed.

Lemma start_round_ok random (s : State) :
  draws random -> round_ok s -> round_ok (start random s).
Proof.
  intros Hdraws [Hown Hc Hl Ht Hto Hi]. run_handlers.
  apply startRound_round_ok; auto. lia.
Qed.

Lemma next_round_ok random (s : State) :
  draws random -> round_ok s -> round_ok (next random s).
Proof.
  intros Hdraws [Hown Hc Hl Ht Hto Hi]. run_handlers.
  apply startRound_round_ok; auto.
Qed.

Lemma step_round_ok (s s' : State) : round_ok s -> step s s' -> round_ok s'.
Proof.
  intros Hok Hstep. destruct Hstep.
  - now apply start_round_ok.
  - now apply next_round_ok.
  - unfold handleKeyDown. destruct (negb _); [exact Hok|].
    destruct (phase s); auto using start_round_ok, next_round_ok.
  - unfold handler. destruct (negb _); [exact Hok|].
    destruct (phase s) eqn:Hphase; auto using start_round_ok, next_round_ok.
    destruct (truthy _); auto using submit_round_ok.
  - unfold onSubmit. destruct (truthy _); auto using submit_round_ok.
  - destruct Hok as [Hown Hc Hl Ht Hto Hi]. constructor; fields; auto.
  - destruct Hok as [Hown Hc Hl Ht Hto Hi]. constructor; fields; auto.
  - eapply expire_round_ok; eauto.
  - now apply tick_round_ok.
Qed.

Lemma reachable_round_ok window storage (s : State) :
  reachable window storage s -> round_ok s.
Proof.
  unfold reachable. revert s. apply rtc_ind_r.
  - apply init_round_ok.
  - intros s1 s2 _ Hstep IH. eapply step_round_ok; eauto.
Qed.

(** C3. The delay of the timeout that [startRound] schedules at level [L]
    is [clamp(L * 650, 1200, 6000)] ms; it is 1200 at level 1, 1300 at
    level 2 and 6000 at level 10. *)
Theorem startRound_duration_clamped random (L : Z) (s : State) :
  duration L = clamp (L * 650) 1200 6000 /\
  (exists id,
      timerRef (startRound random L s) = Some id /\
      timers (startRound random L s) !! id
      = Some (Timeout (clamp (L * 650) 1200 6000))) /\
  duration 1 = 1200%Z /\ duration 2 = 1300%Z /\ duration 10 = 6000%Z.
Proof.
  assert (Hclamp : duration L = clamp (L * 650) 1200 6000).
  { unfold duration, clamp, MAX_TIME, MIN_TIME, TIME_PER_DIGIT.
    destruct (Z.ltb_spec (L * 650) 1200), (Z.ltb_spec 6000 (L * 650)); lia. }
  split; [exact Hclamp|]. split; [|repeat split; reflexivity].
  rewrite <- Hclamp. unfold startRound, setTimeout, setInterval, setTimer, to.
  fields. eexists. split; [reflexivity|]. apply lookup_insert_eq.
Qed.

Lemma startRound_fresh random L (s : State) :
  timers_owned s ->
  input (startRound random L s) = "" /\
  cancelled s (startRound random L s) /\
  one_round_pending L (startRound random L s) /\
  size (timers (startRound random L s)) = 2%nat.
Proof.
  intros Hown. rewrite (startRound_eq _ _ _ Hown).
  assert (Hne : Pos.succ (nextTimerId s) <> nextTimerId s) by lia.
  split; [reflexivity|]. split; [|split].
  - intros id [t Ht]. fields. destruct (Hown id t Ht) as [Hlt _].
    rewrite lookup_insert_ne by lia. apply lookup_singleton_ne. lia.
  - exists (nextTimerId s), (Pos.succ (nextTimerId s)). fields. auto.
  - fields. rewrite map_size_insert_None by (apply lookup_singleton_ne; lia).
    now rewrite map_size_singleton.
Qed.

(** C8. From any state the page can reach, starting a round (directly, by
    the start action or by the next action) empties the input, leaves no
    timer that was pending before, and leaves exactly two pending timers:
    one timeout and one ticker. So after two start actions in a row the
    timers of the first are gone and exactly one timeout and one ticker
    are pending. *)
Theorem startRound_cancels_previous_timers window storage (s : State) r1 r2 L :
  reachable window storage s ->
  (input (startRound r1 L s) = "" /\
   cancelled s (startRound r1 L s) /\
   one_round_pending L (startRound r1 L s)) /\
  (input (start r1 s) = "" /\
   cancelled s (start r1 s) /\ one_round_pending 1 (start r1 s)) /\
  (input (next r1 s) = "" /\
   cancelled s (next r1 s) /\ one_round_pending (level s) (next r1 s)) /\
  (cancelled (start r1 s) (start r2 (start r1 s)) /\
   one_round_pending 1 (start r2 (start r1 s)) /\
   size (timers (start r2 (start r1 s))) = 2%nat).
Proof.
  intros Hreach. pose proof (ok_timers _ (reachable_round_ok _ _ _ Hreach)) as Hown.
  assert (Hstart : forall r (s0 : State), timers_owned s0 ->
            input (start r s0) = "" /\ cancelled s0 (start r s0) /\
            one_round_pending 1 (start r s0) /\
            size (timers (start r s0)) = 2%nat /\ timers_owned (start r s0)).
  { intros r s0 Hown0. run_handlers.
    set (s1 := setMessage (fun _ => "") (setLevel (fun _ => 1%Z) s0)).
    assert (Hown1 : timers_owned s1) by exact Hown0.
    destruct (startRound_fresh r 1 s1 Hown1) as (Hi & Hc & Hp & Hs).
    repeat (split; [assumption|]).
    rewrite (startRound_eq _ _ _ Hown1). intros id t. fields.
    rewrite lookup_insert. case_decide as Hid.
    - intros [= <-]. subst id. split; [lia | reflexivity].
    - rewrite lookup_singleton. case_decide as Hid'; [|discriminate].
      intros [= <-]. subst id. split; [lia | reflexivity]. }
  destruct (startRound_fresh r1 L s Hown) as (Hi & Hc & Hp & _).
  destruct (Hstart r1 s Hown) as (Hi1 & Hc1 & Hp1 & _ & Hown1).
  destruct (Hstart r2 (start r1 s) Hown1) as (_ & Hc2 & Hp2 & Hs2 & _).
  split; [auto|]. split; [auto|]. split; [|auto].
  run_handlers.
  destruct (startRound_fresh r1 (level s) (setMessage (fun _ => "") s) Hown)
    as (Hi3 & Hc3 & Hp3 & _).
  auto.
Qed.

Lemma startRound_cancels_previous_timers_witness :
  cancelled (start (fun _ => 0%Q) (init true ∅))
            (start (fun _ => 0%Q) (start (fun _ => 0%Q) (init true ∅))) /\
  one_round_pending 1 (start (fun _ => 0%Q) (start (fun _ => 0%Q) (init true ∅))) /\
  size (timers (start (fun _ => 0%Q) (start (fun _ => 0%Q) (init true ∅)))) = 2%nat.
Proof.
  apply (startRound_cancels_previous_timers true ∅ (init true ∅)
           (fun _ => 0%Q) (fun _ => 0%Q) 1).
  unfold reachable. reflexivity.
Defined.

(** C7. A round at level [L] starts its countdown at [ceil(duration(L) / 1000)];
    a tick takes exactly 1 off a positive countdown and leaves 0 at 0; and
    the countdown is never negative: not in any state the page can reach,
    not after a tick, and a tick that comes after the timeout fired still
    finds and leaves 0. *)
Theorem countdown_never_negative window storage (s : State) random (L : Z) :
  reachable window storage s ->
  countdown (startRound random L s) = Qceiling (inject_Z (duration L) / 1000) /\
  countdown (startRound random L s) = ((duration L + 999) / 1000)%Z /\
  countdown (tick s) = Z.max 0 (countdown s - 1) /\
  (1 <= countdown s -> countdown (tick s) = countdown s - 1)%Z /\
  (0 <= countdown s)%Z /\
  (forall s0 : State, 0 <= countdown (tick s0))%Z /\
  countdown (expire s) = 0%Z /\
  countdown (tick (expire s)) = 0%Z.
Proof.
  intros Hreach. pose proof (reachable_round_ok _ _ _ Hreach) as [Hown Hc _ _ _ _].
  rewrite <- ceil_thousandth, (startRound_eq _ _ _ Hown).
  rewrite (clearTimers_owned_expire s Hown). run_handlers. fields.
  repeat split; try reflexivity; lia.
Qed.

Lemma countdown_never_negative_witness :
  countdown (startRound (fun _ => 0%Q) 1 (init true ∅)) = 2%Z /\
  countdown (tick (init true ∅)) = 0%Z.
Proof.
  destruct (countdown_never_negative true ∅ (init true ∅) (fun _ => 0%Q) 1)
    as (_ & Hstart & Htick & _).
  { unfold reachable. reflexivity. }
  split; [exact Hstart | exact Htick].
Defined.

(** C9. For every length [L >= 1], [generateNumber] returns exactly [L]
    characters, all of them digits; the target of a round is such a
    string, so while a round is on (phases [show] and [input]) the target
    has as many digits as the level. *)
Theorem generateNumber_length_digits window storage (s : State) random (L : Z) :
  draws random ->
  (1 <= L)%Z ->
  reachable window storage s ->
  (Z.of_nat (String.length (generateNumber random L)) = L /\
   all isDigit (generateNumber random L) = true) /\
  number (startRound random L s) = generateNumber random L /\
  (phase s = Phase.show \/ phase s = Phase.input ->
   Z.of_nat (String.length (number s)) = level s /\
   all isDigit (number s) = true).
Proof.
  intros Hdraws HL Hreach.
  destruct (GenerateFacts.generateNumber_digits random L Hdraws) as [Hlen Hdig].
  pose proof (reachable_round_ok _ _ _ Hreach) as [Hown _ _ Htarget _ _].
  split; [split; [lia | exact Hdig]|]. split; [|exact Htarget].
  now rewrite (startRound_eq _ _ _ Hown).
Qed.

(** The sample game is one the page can play. *)
Lemma sevens_draws : draws sevens.
Proof. intros i. split; [discriminate | reflexivity]. Qed.

Lemma shown_reachable : reachable true ∅ shown.
Proof. apply rtc_once, step_start_click; [reflexivity | exact sevens_draws]. Qed.

Lemma asked_reachable : reachable true ∅ asked.
Proof.
  eapply rtc_r; [exact shown_reachable|].
  apply (step_timeout shown 2%positive 1200). reflexivity.
Qed.

Lemma typedRight_reachable : reachable true ∅ typedRight.
Proof.
  eapply rtc_r; [exact asked_reachable|].
  apply (step_change asked "7"); [reflexivity | apply le_n].
Qed.

Lemma typedWrong_reachable : reachable true ∅ typedWrong.
Proof.
  eapply rtc_r; [exact asked_reachable|].
  apply (step_change asked "3"); [reflexivity | apply le_n].
Qed.

Lemma won_step : step typedRight won.
Proof. apply step_window_keydown, sevens_draws. Qed.

Lemma halfTyped_reachable : reachable true ∅ halfTyped.
Proof.
  assert (Hwon : reachable true ∅ won)
    by (eapply rtc_r; [exact typedRight_reachable | exact won_step]).
  assert (Hshown : reachable true ∅ shownAgain).
  { eapply rtc_r; [exact Hwon|].
    apply step_next_click; [reflexivity | exact sevens_draws]. }
  assert (Hasked : reachable true ∅ askedAgain).
  { eapply rtc_r; [exact Hshown|].
    apply (step_timeout shownAgain 4%positive 1300). reflexivity. }
  eapply rtc_r; [exact Hasked|].
  apply (step_change askedAgain "7"); [reflexivity|]. apply le_S, le_n.
Qed.

Lemma generateNumber_length_digits_witness :
  generateNumber sevens 4 = "7777" /\
  Z.of_nat (String.length (generateNumber sevens 4)) = 4%Z /\
  Z.of_nat (String.length (number shown)) = 1%Z.
Proof.
  destruct (generateNumber_length_digits true ∅ shown sevens 4
              sevens_draws ltac:(lia) shown_reachable)
    as ((Hlen & _) & _ & Hround).
  split; [reflexivity|]. split; [exact Hlen|].
  apply Hround. left. reflexivity.
Defined.

(** The text field never holds more characters than the target has. *)
Lemma input_never_exceeds_target window storage (s : State) :
  reachable window storage s ->
  (String.length (input s) <= String.length (number s))%nat.
Proof. intros Hreach. apply (ok_input _ (reachable_round_ok _ _ _ Hreach)). Qed.

(** C5 fails on the page: the submit button is disabled until the input
    has the target's length, but Enter reaches [submit] through the
    [keydown] listener, which only asks for a non-empty input. In the
    sample game the page reaches phase [input] with target ["77"] and
    input ["7"]; the button is disabled, and pressing Enter runs [submit],
    which compares the one character typed with the two of the target and
    ends the round as failed. *)
Theorem enter_submits_partial_input :
  reachable true ∅ halfTyped /\
  phase halfTyped = Phase.input /\
  number halfTyped = "77" /\ input halfTyped = "7" /\
  submitDisabled halfTyped = true /\
  (forall random, handler random "Enter" halfTyped = submit halfTyped) /\
  step halfTyped (submit halfTyped) /\
  phase (submit halfTyped) = Phase.result /\
  lastRoundFailed (submit halfTyped) = true /\
  level (submit halfTyped) = 1%Z.
Proof.
  split; [exact halfTyped_reachable|].
  do 4 (split; [reflexivity|]).
  split; [intros random; reflexivity|].
  split; [|split; [|split]; reflexivity].
  apply (step_window_keydown halfTyped sevens "Enter"), sevens_draws.
Qed.

End RoundFacts.

(** ** The best streak *)

Module StreakFacts.
Import JsString JsStringFacts JsNumber Page Spec RoundFacts.

Lemma digits_string_of_uint d : all isDigit (NilEmpty.string_of_uint d) = true.
Proof. induction d; simpl; auto. Qed.

Lemma digitsPrefix_digits (s : string) : all isDigit s = true -> digitsPrefix s = s.
Proof.
  induction s as [|c s IH]; simpl; auto.
  intros [Hc Hs]%andb_prop. now rewrite Hc, IH.
Qed.

(** What [toString] writes for a natural number, [parseInt] reads back. *)
Lemma parseInt_toString (z : Z) :
  (0 <= z)%Z -> parseInt (toString (Int z)) = Int z /\ truthy (toString (Int z)) = true.
Proof.
  intros Hz. destruct z as [|p|p]; [split; reflexivity | | lia].
  unfold toString. change (Z.to_int (Z.pos p)) with (Decimal.Pos (Pos.to_uint p)).
  pose proof (DecimalPos.Unsigned.to_uint_nonnil p) as Hnil.
  pose proof (DecimalPos.Unsigned.of_to p) as Hof.
  unfold NilZero.string_of_int, NilZero.string_of_uint.
  set (d := Pos.to_uint p) in *.
  pose proof (digits_string_of_uint d) as Hdig.
  pose proof (NilEmpty.usu d) as Husu.
  destruct d as [|d'|d'|d'|d'|d'|d'|d'|d'|d'|d']; [congruence|..];
    (split; [|reflexivity]);
    unfold parseInt; simpl trimStart; cbv iota beta;
    simpl NilEmpty.string_of_uint in *;
    rewrite (digitsPrefix_digits _ Hdig), Husu;
    unfold Z.of_uint; rewrite Hof; reflexivity.
Qed.

Lemma startRound_keeps_streak random L (s : State) :
  highStreak (startRound random L s) = highStreak s /\
  localStorage (startRound random L s) = localStorage s.
Proof. unfold startRound. rewrite clearTimers_eq. split; reflexivity. Qed.

Lemma expire_keeps_streak (s : State) :
  highStreak (expire s) = highStreak s /\
  localStorage (expire s) = localStorage s.
Proof. unfold expire, seq_. rewrite clearTimers_eq. split; reflexivity. Qed.

(** [updateHighStreak] replaces the best streak by the maximum. *)
Lemma updateHighStreak_max newStreak (s : State) best :
  highStreak s = Int best ->
  highStreak (updateHighStreak newStreak s) = Int (Z.max best newStreak) /\
  localStorage (updateHighStreak newStreak s)
  = <["highStreak" := toString (Int (Z.max best newStreak))]> (localStorage s).
Proof. intros Hbest. run_handlers. fields. rewrite Hbest. split; reflexivity. Qed.

Lemma submit_streak (s : State) : streak_moves s (submit s).
Proof.
  run_handlers. destruct (String.eqb (input s) (number s)).
  - right. exists (level s). split; reflexivity.
  - left. split; reflexivity.
Qed.

Lemma start_streak random (s : State) : streak_moves s (start random s).
Proof.
  left. run_handlers.
  destruct (startRound_keeps_streak random 1
              (setMessage (fun _ => "") (setLevel (fun _ => 1%Z) s))) as [Hh Hl].
  split; [exact Hh | exact Hl].
Qed.

Lemma next_streak random (s : State) : streak_moves s (next random s).
Proof.
  left. run_handlers.
  destruct (startRound_keeps_streak random (level s)
              (setMessage (fun _ => "") s)) as [Hh Hl].
  split; [exact Hh | exact Hl].
Qed.

Lemma step_streak (s s' : State) : step s s' -> streak_moves s s'.
Proof.
  assert (Hstay : forall s0 : State, streak_moves s0 s0) by (left; auto).
  intros Hstep. destruct Hstep.
  - apply start_streak.
  - apply next_streak.
  - unfold handleKeyDown. destruct (negb _); [apply Hstay|].
    destruct (phase s); auto using start_streak, next_streak.
  - unfold handler. destruct (negb _); [apply Hstay|].
    destruct (phase s); auto using start_streak, next_streak.
    destruct (truthy _); auto using submit_streak.
  - unfold onSubmit. destruct (truthy _); auto using submit_streak.
  - left. split; reflexivity.
  - left. split; reflexivity.
  - left. apply (expire_keeps_streak (timers_update (delete id) s)).
  - left. split; reflexivity.
Qed.

Lemma streak_moves_mono (s s' : State) best :
  streak_moves s s' -> highStreak s = Int best ->
  exists best', highStreak s' = Int best' /\ (best <= best')%Z.
Proof.
  intros [[Hh _]|(n & Hh & _)] Hbest; rewrite Hbest in Hh.
  - exists best. auto with lia.
  - exists (Z.max best n). split; [exact Hh | lia].
Qed.

Lemma streak_moves_ok (s s' : State) :
  streak_ok s -> streak_moves s s' -> streak_ok s'.
Proof.
  intros [(best & Hbest & Hpos) Hstore] [[Hh Hl]|(n & Hh & Hl)].
  - split; [exists best; now rewrite Hh | now rewrite Hl].
  - rewrite Hbest in Hh, Hl. cbn [Math_max] in Hh, Hl.
    split; [exists (Z.max best n); auto with lia|].
    rewrite Hl. intros stored. rewrite lookup_insert_eq. intros [= <-] _.
    exists (Z.max best n). split; [lia|]. apply parseInt_toString. lia.
Qed.

Lemma init_streak_ok window storage :
  storage_ok storage -> streak_ok (init window storage).
Proof.
  intros Hstore. split; [|exact Hstore]. fields.
  destruct window; [|exists 0%Z; auto with lia].
  destruct (storage !! "highStreak") as [stored|] eqn:Hget;
    [|exists 0%Z; auto with lia].
  destruct (truthy stored) eqn:Htruthy; [|exists 0%Z; auto with lia].
  destruct (Hstore stored Hget Htruthy) as (n & Hn & ->). eauto.
Qed.

Lemma reachable_streak_ok window storage (s : State) :
  storage_ok storage -> reachable window storage s -> streak_ok s.
Proof.
  intros Hstore. unfold reachable. revert s. apply rtc_ind_r.
  - now apply init_streak_ok.
  - intros s1 s2 _ Hstep IH.
    apply (streak_moves_ok s1 s2 IH (step_streak _ _ Hstep)).
Qed.

(** C6, as stated, fails at start-up: the page takes whatever [parseInt]
    makes of the stored text, which may be negative or [NaN]; a [NaN] then
    stays through a won round. *)
Lemma highStreak_read_unchecked :
  highStreak (init true {["highStreak" := "-5"]}) = Int (-5) /\
  highStreak (init true {["highStreak" := "best"]}) = NaN /\
  highStreak
    (updateHighStreak 3 (init true {["highStreak" := "best"]})) = NaN.
Proof. split; [|split]; reflexivity. Qed.

(** C6, amended. No step of the page decreases the best streak, and an
    update replaces it by the maximum of itself and the new value; the best
    streak is a natural number in every state the page can reach provided
    that what [localStorage] held at start-up was absent, empty, or read
    back as a natural number, and then what the page stores reads back as
    one too. *)
Theorem highStreak_never_decreases window storage (s s' : State) :
  reachable window storage s ->
  step s s' ->
  (forall best,
      highStreak s = Int best ->
      (forall newStreak,
          highStreak (updateHighStreak newStreak s) = Int (Z.max best newStreak)) /\
      exists best', highStreak s' = Int best' /\ (best <= best')%Z) /\
  (storage_ok storage ->
   (exists best, highStreak s = Int best /\ (0 <= best)%Z) /\
   storage_ok (localStorage s')).
Proof.
  intros Hreach Hstep. pose proof (step_streak _ _ Hstep) as Hmoves. split.
  - intros best Hbest. split; [|now apply (streak_moves_mono s s')].
    intros newStreak. now apply updateHighStreak_max.
  - intros Hstore.
    pose proof (reachable_streak_ok _ _ _ Hstore Hreach) as Hok.
    split; [apply Hok | apply (streak_moves_ok s s' Hok Hmoves)].
Qed.

Lemma highStreak_never_decreases_witness :
  highStreak typedRight = Int 0 /\
  (exists best', highStreak won = Int best' /\ (0 <= best')%Z) /\
  storage_ok (localStorage won).
Proof.
  destruct (highStreak_never_decreases true ∅ typedRight won
              typedRight_reachable won_step) as [Hmono Hnat].
  split; [reflexivity|]. split; [apply (Hmono 0%Z eq_refl)|].
  apply Hnat. intros stored Hget. now rewrite lookup_empty in Hget.
Defined.

End StreakFacts.

(** ** The page as a state machine *)

Module MachineFacts.
Import JsString JsStringFacts JsNumber Page Spec View Machine RoundFacts.

Lemma ceil_duration_le_6 L : ((duration L + 999) / 1000 <= 6)%Z.
Proof.
  pose proof (duration_bounds L).
  assert ((duration L + 999) / 1000 < 7)%Z; [|lia].
  apply Z.div_lt_upper_bound; lia.
Qed.

Lemma init_page_ok window storage : page_ok (init window storage).
Proof.
  constructor; fields; try discriminate; auto.
Qed.

(** A round that [startRound] has just started at the page's level. *)
Lemma startRound_page_ok random (s : State) :
  timers_owned s -> page_ok (startRound random (level s) s).
Proof.
  intros Hown. rewrite (startRound_eq _ _ _ Hown).
  constructor; fields; try discriminate; try congruence.
  intros _. split; [|split; [reflexivity|]].
  - exists (nextTimerId s), (Pos.succ (nextTimerId s)). fields.
    split; [lia|]. repeat split; reflexivity.
  - rewrite ceil_thousandth. lia.
Qed.

Lemma start_page_ok random (s : State) :
  timers_owned s -> page_ok (start random s).
Proof.
  intros Hown. run_handlers.
  apply (startRound_page_ok random
           (setMessage (fun _ => "") (setLevel (fun _ => 1%Z) s))).
  exact Hown.
Qed.

Lemma next_page_ok random (s : State) :
  timers_owned s -> page_ok (next random s).
Proof.
  intros Hown. run_handlers.
  apply (startRound_page_ok random (setMessage (fun _ => "") s)).
  exact Hown.
Qed.

Lemma submit_page_ok (s : State) :
  round_ok s -> page_ok s -> phase s = Phase.input -> page_ok (submit s).
Proof.
  intros Hround [_ Hidle _ _] Hphase.
  destruct Hidle as [Hempty Hzero]; [congruence|].
  pose proof (ok_level _ Hround) as Hlevel.
  run_handlers.
  destruct (String.eqb (input s) (number s)); constructor; fields;
    try discriminate; auto.
  - intros _. right. repeat split; auto. lia.
Qed.

Lemma tick_page_ok (s : State) : page_ok s -> page_ok (tick s).
Proof.
  intros [Hshow Hidle Hready Hresult]. run_handlers.
  constructor; fields; auto.
  - intros Hphase. destruct (Hshow Hphase) as (Hpending & Hinput & Hle).
    repeat split; auto.
    pose proof (duration_bounds (level s)).
    assert (0 <= (duration (level s) + 999) / 1000)%Z by (apply Z.div_pos; lia).
    lia.
  - intros Hphase. destruct (Hidle Hphase) as [Hempty Hzero].
    split; [exact Hempty | lia].
Qed.

Lemma expire_page_ok (s : State) id :
  round_ok s -> page_ok s ->
  page_ok (expire (timers_update (delete id) s)).
Proof.
  intros Hround Hpage.
  assert (Hown : timers_owned (timers_update (delete id) s)).
  { intros id' t'. fields. rewrite lookup_delete. case_decide; [discriminate|].
    apply (ok_timers _ Hround). }
  rewrite (clearTimers_owned_expire _ Hown). unfold to.
  constructor; fields; try discriminate; auto.
Qed.

Lemma step_page_ok (s s' : State) :
  round_ok s -> page_ok s -> step s s' -> page_ok s'.
Proof.
  intros Hround Hpage Hstep. pose proof (ok_timers _ Hround) as Hown.
  destruct Hstep.
  - now apply start_page_ok.
  - now apply next_page_ok.
  - unfold handleKeyDown. destruct (negb _); [exact Hpage|].
    destruct (phase s); auto using start_page_ok, next_page_ok.
  - unfold handler. destruct (negb _); [exact Hpage|].
    destruct (phase s) eqn:Hphase; auto using start_page_ok, next_page_ok.
    destruct (truthy _); auto using submit_page_ok.
  - unfold onSubmit. destruct (truthy _); auto using submit_page_ok.
  - destruct Hpage as [Hshow Hidle Hready Hresult].
    run_handlers. constructor; fields; auto; congruence.
  - destruct Hpage as [Hshow Hidle Hready Hresult].
    run_handlers. constructor; fields; auto.
  - now apply expire_page_ok.
  - now apply tick_page_ok.
Qed.

Lemma reachable_page_ok window storage (s : State) :
  reachable window storage s -> round_ok s /\ page_ok s.
Proof.
  unfold reachable. revert s. apply rtc_ind_r.
  - split; [apply init_round_ok | apply init_page_ok].
  - intros s1 s2 _ Hstep [Hround Hpage].
    split; [eapply step_round_ok | eapply step_page_ok]; eauto.
Qed.

(** The fields that a handler's [startRound] sets or keeps. *)
Lemma startRound_fields random L (s : State) :
  timers_owned s ->
  phase (startRound random L s) = Phase.show /\
  number (startRound random L s) = generateNumber random L /\
  level (startRound random L s) = level s /\
  lastRoundFailed (startRound random L s) = lastRoundFailed s.
Proof. intros Hown. rewrite (startRound_eq _ _ _ Hown). fields. auto. Qed.

Lemma start_fields random (s : State) :
  timers_owned s ->
  phase (start random s) = Phase.show /\ level (start random s) = 1%Z.
Proof.
  intros Hown. run_handlers.
  destruct (startRound_fields random 1
              (setMessage (fun _ => "") (setLevel (fun _ => 1%Z) s)) Hown)
    as (Hp & _ & Hl & _).
  split; [exact Hp | exact Hl].
Qed.

Lemma next_fields random (s : State) :
  timers_owned s ->
  phase (next random s) = Phase.show /\ level (next random s) = level s /\
  number (next random s) = generateNumber random (level s).
Proof.
  intros Hown. run_handlers.
  destruct (startRound_fields random (level s) (setMessage (fun _ => "") s) Hown)
    as (Hp & Hn & Hl & _).
  split; [exact Hp|]. split; [exact Hl | exact Hn].
Qed.

Lemma submit_fields (s : State) :
  phase (submit s) = Phase.result /\ number (submit s) = number s /\
  input (submit s) = input s /\
  (level (submit s) = (level s + 1)%Z \/ level (submit s) = 1%Z).
Proof.
  run_handlers. destruct (String.eqb (input s) (number s)); fields; auto.
Qed.

Lemma expire_fields (s : State) :
  timers_owned s ->
  phase (expire s) = Phase.input /\ number (expire s) = number s /\
  level (expire s) = level s /\ input (expire s) = input s.
Proof. intros Hown. rewrite (clearTimers_owned_expire _ Hown). fields. auto. Qed.

Lemma delete_owned (s : State) id :
  timers_owned s -> timers_owned (timers_update (delete id) s).
Proof.
  intros Hown id' t'. fields. rewrite lookup_delete. case_decide; [discriminate|].
  apply Hown.
Qed.

(** What the listeners and the form end up running. *)
Lemma handleKeyDown_cases random key (s : State) :
  handleKeyDown random key s = s \/
  (phase s = Phase.ready /\ handleKeyDown random key s = start random s) \/
  (phase s = Phase.result /\ handleKeyDown random key s = next random s).
Proof.
  unfold handleKeyDown. destruct (negb _); [auto|]. destruct (phase s); auto.
Qed.

Lemma handler_cases random key (s : State) :
  handler random key s = s \/
  (phase s = Phase.ready /\ handler random key s = start random s) \/
  (phase s = Phase.result /\ handler random key s = next random s) \/
  (phase s = Phase.input /\ handler random key s = submit s).
Proof.
  unfold handler. destruct (negb _); [auto|].
  destruct (phase s); auto. destruct (truthy _); auto.
Qed.

Lemma onSubmit_cases (s : State) : onSubmit s = s \/ onSubmit s = submit s.
Proof. unfold onSubmit. destruct (truthy _); auto. Qed.

(** How one step moves the phase, the target and the level. *)
Lemma step_moves (s s' : State) :
  round_ok s -> page_ok s -> step s s' ->
  phase_moves (phase s) (phase s') /\
  (number s' <> number s ->
   (phase s = Phase.ready \/ phase s = Phase.result) /\ phase s' = Phase.show) /\
  (level s' <> level s ->
   phase s = Phase.input /\ phase s' = Phase.result /\
   (level s' = (level s + 1)%Z \/ level s' = 1%Z)).
Proof.
  intros Hround Hpage Hstep. pose proof (ok_timers _ Hround) as Hown.
  assert (Hstay : phase_moves (phase s) (phase s) /\
            (number s <> number s ->
             (phase s = Phase.ready \/ phase s = Phase.result) /\
             phase s = Phase.show) /\
            (level s <> level s ->
             phase s = Phase.input /\ phase s = Phase.result /\
             (level s = (level s + 1)%Z \/ level s = 1%Z))).
  { split; [left; reflexivity|]. split; congruence. }
  assert (Hstart : forall random, phase s = Phase.ready ->
            phase_moves (phase s) (phase (start random s)) /\
            (number (start random s) <> number s ->
             (phase s = Phase.ready \/ phase s = Phase.result) /\
             phase (start random s) = Phase.show) /\
            (level (start random s) <> level s ->
             phase s = Phase.input /\ phase (start random s) = Phase.result /\
             (level (start random s) = (level s + 1)%Z \/
              level (start random s) = 1%Z))).
  { intros random Hphase. destruct (start_fields random s Hown) as [Hp Hl].
    destruct (pk_ready _ Hpage Hphase) as (Hone & _ & _).
    rewrite Hp, Hl, Hphase, Hone. unfold phase_moves. intuition. }
  assert (Hnext : forall random, phase s = Phase.result ->
            phase_moves (phase s) (phase (next random s)) /\
            (number (next random s) <> number s ->
             (phase s = Phase.ready \/ phase s = Phase.result) /\
             phase (next random s) = Phase.show) /\
            (level (next random s) <> level s ->
             phase s = Phase.input /\ phase (next random s) = Phase.result /\
             (level (next random s) = (level s + 1)%Z \/
              level (next random s) = 1%Z))).
  { intros random Hphase. destruct (next_fields random s Hown) as (Hp & Hl & _).
    rewrite Hp, Hl, Hphase. unfold phase_moves. intuition. }
  assert (Hsubmit : phase s = Phase.input ->
            phase_moves (phase s) (phase (submit s)) /\
            (number (submit s) <> number s ->
             (phase s = Phase.ready \/ phase s = Phase.result) /\
             phase (submit s) = Phase.show) /\
            (level (submit s) <> level s ->
             phase s = Phase.input /\ phase (submit s) = Phase.result /\
             (level (submit s) = (level s + 1)%Z \/ level (submit s) = 1%Z))).
  { intros Hphase. destruct (submit_fields s) as (Hp & Hn & _ & Hl).
    rewrite Hp, Hn, Hphase. unfold phase_moves. intuition. }
  destruct Hstep.
  - now apply Hstart.
  - now apply Hnext.
  - destruct (handleKeyDown_cases random key s)
      as [->|[[Hphase ->]|[Hphase ->]]]; auto.
  - destruct (handler_cases random key s)
      as [->|[[Hphase ->]|[[Hphase ->]|[Hphase ->]]]]; auto.
  - destruct (onSubmit_cases s) as [->| ->]; auto.
  - exact Hstay.
  - exact Hstay.
  - destruct (expire_fields _ (delete_owned s id Hown)) as (Hp & Hn & Hl & _).
    rewrite Hp, Hn, Hl. fields.
    rewrite (ok_timeout _ Hround _ _ H). unfold phase_moves. intuition.
  - exact Hstay.
Qed.

(** X1. From a state the page can reach, a step keeps the phase or moves
    it along the cycle ready, show, input, result, show; in particular the
    page never comes back to phase [ready]. *)
Theorem phase_follows_cycle window storage (s s' : State) :
  reachable window storage s ->
  step s s' ->
  phase_moves (phase s) (phase s') /\
  (phase s' = Phase.ready -> phase s = Phase.ready).
Proof.
  intros Hreach Hstep. destruct (reachable_page_ok _ _ _ Hreach) as [Hround Hpage].
  destruct (step_moves s s' Hround Hpage Hstep) as [Hmoves _].
  split; [exact Hmoves|].
  unfold phase_moves in Hmoves. intros Hready. rewrite Hready in Hmoves.
  intuition congruence.
Qed.

Lemma phase_follows_cycle_witness :
  phase_moves (phase typedRight) (phase won) /\ phase won = Phase.result.
Proof.
  split; [|reflexivity].
  apply (phase_follows_cycle true ∅ typedRight won typedRight_reachable won_step).
Defined.

(** X2. From a state the page can reach, a step changes the target only
    by starting a round (from phase [ready] or [result], into phase
    [show]), and changes the level only by a submit (from phase [input]
    into phase [result], to the level plus one or to 1): both are fixed
    while a round is shown and answered. *)
Theorem target_and_level_fixed_in_round window storage (s s' : State) :
  reachable window storage s ->
  step s s' ->
  (number s' <> number s ->
   (phase s = Phase.ready \/ phase s = Phase.result) /\ phase s' = Phase.show) /\
  (level s' <> level s ->
   phase s = Phase.input /\ phase s' = Phase.result /\
   (level s' = (level s + 1)%Z \/ level s' = 1%Z)).
Proof.
  intros Hreach Hstep. destruct (reachable_page_ok _ _ _ Hreach) as [Hround Hpage].
  apply (step_moves s s' Hround Hpage Hstep).
Qed.

Lemma target_and_level_fixed_in_round_witness :
  number won = number typedRight /\ level won = (level typedRight + 1)%Z.
Proof.
  destruct (target_and_level_fixed_in_round true ∅ typedRight won
              typedRight_reachable won_step) as [Hnumber Hlevel].
  split.
  - destruct (decide (number won = number typedRight)) as [Heq|Hne]; [exact Heq|].
    destruct (Hnumber Hne) as [_ Hshow]. discriminate Hshow.
  - destruct (Hlevel ltac:(discriminate)) as (_ & _ & [Hup|Hone]);
      [exact Hup | discriminate Hone].
Defined.

(** X3. In every state the page can reach, timers are pending exactly
    while the target is shown: in phase [show] one timeout, with the delay
    of the current level, and one ticker, each held by its ref box; in
    every other phase none. *)
Theorem timers_pending_only_in_show window storage (s : State) :
  reachable window storage s ->
  (phase s = Phase.show -> one_round_pending (level s) s) /\
  (phase s <> Phase.show -> timers s = ∅).
Proof.
  intros Hreach. destruct (reachable_page_ok _ _ _ Hreach) as [_ Hpage].
  split; intros Hphase.
  - apply (pk_show _ Hpage Hphase).
  - apply (pk_idle _ Hpage Hphase).
Qed.

Lemma timers_pending_only_in_show_witness :
  one_round_pending 1 shown /\ timers asked = ∅.
Proof.
  split.
  - apply (proj1 (timers_pending_only_in_show true ∅ shown shown_reachable)).
    reflexivity.
  - apply (proj2 (timers_pending_only_in_show true ∅ asked asked_reachable)).
    discriminate.
Defined.

(** X4. In every state the page can reach the countdown is 0 outside
    phase [show], and in phase [show] it is at most the seconds of the
    current level's duration, rounded up; so it is never more than 6. *)
Theorem countdown_bounded window storage (s : State) :
  reachable window storage s ->
  (phase s <> Phase.show -> countdown s = 0%Z) /\
  (phase s = Phase.show ->
   (countdown s <= Qceiling (inject_Z (duration (level s)) / 1000))%Z) /\
  (0 <= countdown s <= 6)%Z.
Proof.
  intros Hreach. destruct (reachable_page_ok _ _ _ Hreach) as [Hround Hpage].
  pose proof (ok_countdown _ Hround) as Hpos.
  pose proof (ceil_duration_le_6 (level s)) as Hsix.
  split; [intros Hphase; apply (pk_idle _ Hpage Hphase)|]. split.
  - intros Hphase. rewrite ceil_thousandth. apply (pk_show _ Hpage Hphase).
  - split; [exact Hpos|].
    assert (phase s = Phase.show \/ phase s <> Phase.show) as [Hphase|Hphase]
      by (destruct (phase s); auto; right; discriminate).
    + destruct (pk_show _ Hpage Hphase) as (_ & _ & Hle). lia.
    + destruct (pk_idle _ Hpage Hphase) as [_ Hzero]. lia.
Qed.

Lemma countdown_bounded_witness :
  countdown asked = 0%Z /\ (0 <= countdown shown <= 6)%Z.
Proof.
  split.
  - apply (proj1 (countdown_bounded true ∅ asked asked_reachable)). discriminate.
  - apply (proj2 (proj2 (countdown_bounded true ∅ shown shown_reachable))).
Defined.

(** X5. On every result screen the page can reach, the button reads
    "Start Over" exactly when the round failed, and then the level is back
    to 1; otherwise it reads "Next", the level is at least 2 and the
    message is the one of a won round. *)
Theorem result_button_tells_outcome window storage (s : State) :
  reachable window storage s ->
  phase s = Phase.result ->
  (resultButton s = Some "Start Over" /\
   lastRoundFailed s = true /\ level s = 1%Z) \/
  (resultButton s = Some "Next" /\
   lastRoundFailed s = false /\ (2 <= level s)%Z /\
   message s = "Correct! Level up 🎉").
Proof.
  intros Hreach Hphase. destruct (reachable_page_ok _ _ _ Hreach) as [_ Hpage].
  unfold resultButton. rewrite Hphase.
  destruct (pk_result _ Hpage Hphase) as [[Hf Hl]|(Hf & Hl & Hm)]; rewrite Hf; auto.
Qed.

Lemma won_reachable : reachable true ∅ won.
Proof. eapply rtc_r; [exact typedRight_reachable | exact won_step]. Qed.

Lemma result_button_tells_outcome_witness :
  resultButton won = Some "Next" /\ level won = 2%Z.
Proof.
  destruct (result_button_tells_outcome true ∅ won won_reachable eq_refl)
    as [(_ & _ & Hone)|(Hlabel & _ & _ & _)].
  - discriminate Hone.
  - split; [exact Hlabel | reflexivity].
Defined.

(** X6. In every state the page can reach the text field holds at most
    as many characters as the target has, and it is empty before the first
    round and while a target is shown. *)
Theorem input_bounded_and_cleared window storage (s : State) :
  reachable window storage s ->
  (String.length (input s) <= String.length (number s))%nat /\
  (phase s = Phase.ready \/ phase s = Phase.show -> input s = "").
Proof.
  intros Hreach. destruct (reachable_page_ok _ _ _ Hreach) as [Hround Hpage].
  split; [apply (ok_input _ Hround)|].
  intros [Hphase|Hphase].
  - apply (pk_ready _ Hpage Hphase).
  - apply (pk_show _ Hpage Hphase).
Qed.

Lemma input_bounded_and_cleared_witness :
  (String.length (input halfTyped) <= String.length (number halfTyped))%nat /\
  input shownAgain = "".
Proof.
  split.
  - apply (proj1 (input_bounded_and_cleared true ∅ halfTyped halfTyped_reachable)).
  - assert (Hreach : reachable true ∅ shownAgain).
    { eapply rtc_r; [exact won_reachable|].
      apply step_next_click; [reflexivity | exact sevens_draws]. }
    apply (proj2 (input_bounded_and_cleared true ∅ shownAgain Hreach)).
    right. reflexivity.
Defined.

End MachineFacts.

(** ** The best streak, stored and read back *)

Module PersistFacts.
Import JsString JsStringFacts JsNumber Page Spec View Machine RoundFacts
  StreakFacts MachineFacts.

(** What [toString] writes, [parseInt] reads back, whatever the number. *)
Lemma parseInt_toString_any (n : Number) :
  parseInt (toString n) = n /\ truthy (toString n) = true.
Proof.
  destruct n as [|z]; [split; reflexivity|].
  destruct z as [|p|p]; [split; reflexivity | apply parseInt_toString; lia |].
  unfold toString. change (Z.to_int (Z.neg p)) with (Decimal.Neg (Pos.to_uint p)).
  pose proof (DecimalPos.Unsigned.to_uint_nonnil p) as Hnil.
  pose proof (DecimalPos.Unsigned.of_to p) as Hof.
  unfold NilZero.string_of_int, NilZero.string_of_uint.
  set (d := Pos.to_uint p) in *.
  pose proof (digits_string_of_uint d) as Hdig.
  pose proof (NilEmpty.usu d) as Husu.
  destruct d as [|d'|d'|d'|d'|d'|d'|d'|d'|d'|d']; [congruence|..];
    (split; [|reflexivity]);
    unfold parseInt; simpl trimStart; cbv iota beta;
    simpl NilEmpty.string_of_uint in *;
    rewrite (digitsPrefix_digits _ Hdig), Husu;
    unfold Z.of_uint; rewrite Hof; reflexivity.
Qed.

Lemma startRound_keeps_level random L (s : State) :
  level (startRound random L s) = level s.
Proof. unfold startRound. rewrite clearTimers_eq. reflexivity. Qed.

(** What a submit does to the level, the best streak and the storage. *)
Lemma submit_outcome (s : State) :
  (input s = number s /\
   level (submit s) = (level s + 1)%Z /\
   highStreak (submit s) = Math_max (highStreak s) (Int (level s)) /\
   localStorage (submit s)
   = <["highStreak" := toString (Math_max (highStreak s) (Int (level s)))]>
       (localStorage s)) \/
  (input s <> number s /\
   level (submit s) = 1%Z /\
   highStreak (submit s) = highStreak s /\
   localStorage (submit s) = localStorage s).
Proof.
  run_handlers. destruct (String.eqb_spec (input s) (number s)); fields; auto.
Qed.

(** What one step does to them: nothing, a reset of the level, or a won
    round. *)
Lemma step_outcome (s s' : State) :
  step s s' ->
  (highStreak s' = highStreak s /\ localStorage s' = localStorage s /\
   (level s' = level s \/ level s' = 1%Z)) \/
  (phase s = Phase.input /\ input s = number s /\ s' = submit s /\
   level s' = (level s + 1)%Z /\
   highStreak s' = Math_max (highStreak s) (Int (level s)) /\
   localStorage s'
   = <["highStreak" := toString (Math_max (highStreak s) (Int (level s)))]>
       (localStorage s)).
Proof.
  assert (Hstay : highStreak s = highStreak s /\ localStorage s = localStorage s /\
                  (level s = level s \/ level s = 1%Z)) by auto.
  assert (Hstart : forall random,
             highStreak (start random s) = highStreak s /\
             localStorage (start random s) = localStorage s /\
             (level (start random s) = level s \/ level (start random s) = 1%Z)).
  { intros random. run_handlers.
    set (s1 := setMessage (fun _ => "") (setLevel (fun _ => 1%Z) s)).
    destruct (startRound_keeps_streak random 1 s1) as [Hh Hl].
    pose proof (startRound_keeps_level random 1 s1) as Hlevel.
    split; [exact Hh|]. split; [exact Hl|]. right. exact Hlevel. }
  assert (Hnext : forall random,
             highStreak (next random s) = highStreak s /\
             localStorage (next random s) = localStorage s /\
             (level (next random s) = level s \/ level (next random s) = 1%Z)).
  { intros random. run_handlers.
    set (s1 := setMessage (fun _ => "") s).
    destruct (startRound_keeps_streak random (level s) s1) as [Hh Hl].
    pose proof (startRound_keeps_level random (level s) s1) as Hlevel.
    split; [exact Hh|]. split; [exact Hl|]. left. exact Hlevel. }
  assert (Hsubmit : phase s = Phase.input ->
            (highStreak (submit s) = highStreak s /\
             localStorage (submit s) = localStorage s /\
             (level (submit s) = level s \/ level (submit s) = 1%Z)) \/
            (phase s = Phase.input /\ input s = number s /\ submit s = submit s /\
             level (submit s) = (level s + 1)%Z /\
             highStreak (submit s) = Math_max (highStreak s) (Int (level s)) /\
             localStorage (submit s)
             = <["highStreak" := toString (Math_max (highStreak s) (Int (level s)))]>
                 (localStorage s))).
  { intros Hphase.
    destruct (submit_outcome s) as [(He & Hl & Hh & Hs)|(Hne & Hl & Hh & Hs)];
      [right | left]; auto 10. }
  intros Hstep. destruct Hstep.
  - left. apply Hstart.
  - left. apply Hnext.
  - destruct (handleKeyDown_cases random key s)
      as [->|[[Hphase ->]|[Hphase ->]]]; auto.
  - destruct (handler_cases random key s)
      as [->|[[Hphase ->]|[[Hphase ->]|[Hphase ->]]]]; auto.
  - destruct (onSubmit_cases s) as [->| ->]; auto.
  - left. auto.
  - left. auto.
  - left. destruct (expire_keeps_streak (timers_update (delete id) s)) as [Hh Hl].
    split; [exact Hh|]. split; [exact Hl|]. left.
    unfold expire, seq_. rewrite clearTimers_eq. reflexivity.
  - left. auto.
Qed.

Lemma reachable_reloads storage (s : State) :
  reachable true storage s -> reloaded s = highStreak s.
Proof.
  unfold reachable. revert s. apply rtc_ind_r; [reflexivity|].
  intros s1 s2 _ Hstep IH. unfold reloaded in *. fields.
  destruct (step_outcome s1 s2 Hstep)
    as [(Hh & Hl & _)|(_ & _ & _ & _ & Hh & Hl)]; rewrite Hh, Hl.
  - exact IH.
  - rewrite lookup_insert_eq.
    destruct (parseInt_toString_any (Math_max (highStreak s1) (Int (level s1))))
      as [Hparse Htruthy].
    now rewrite Htruthy.
Qed.

(** X7. In a browser, in every state the page can reach whose best streak
    is [NaN] or an integer below [2^53] in absolute value, a page that is
    started again from the storage the current page leaves behind takes
    as its best streak exactly the current best streak: what the page
    stores is read back unchanged. *)
Theorem reload_keeps_best_streak storage (s : State) :
  reachable true storage s ->
  safeNumber (highStreak s) ->
  reloaded s = highStreak s /\ safeNumber (reloaded s).
Proof.
  intros Hreach Hsafe. rewrite (reachable_reloads storage s Hreach). auto.
Qed.

Lemma reload_keeps_best_streak_witness :
  reloaded won = Int 1 /\ localStorage won !! "highStreak" = Some "1".
Proof.
  split; [|reflexivity].
  assert (Hsafe : safeNumber (highStreak won)) by (vm_compute; reflexivity).
  destruct (reload_keeps_best_streak ∅ won won_reachable Hsafe) as [Hsame _].
  rewrite Hsame. reflexivity.
Defined.

(** X8. A step of the page writes no key of [localStorage] other than
    [highStreak], and it leaves both the best streak and the storage as
    they are unless it is the submit of an input equal to the target: a
    lost round, a new round, a key press or a timer never touch them. *)
Theorem storage_written_by_won_round_only (s s' : State) :
  step s s' ->
  (forall key, key <> "highStreak" ->
               localStorage s' !! key = localStorage s !! key) /\
  ((highStreak s' = highStreak s /\ localStorage s' = localStorage s) \/
   (phase s = Phase.input /\ input s = number s /\ s' = submit s)).
Proof.
  intros Hstep.
  destruct (step_outcome s s' Hstep)
    as [(Hh & Hl & _)|(Hphase & Heq & Hs & _ & Hh & Hl)].
  - split; [intros key _; now rewrite Hl | left; auto].
  - split; [|right; auto].
    intros key Hkey. rewrite Hl. now apply lookup_insert_ne.
Qed.

Lemma storage_written_by_won_round_only_witness :
  localStorage won !! "theme" = localStorage typedRight !! "theme" /\
  input typedRight = number typedRight.
Proof.
  destruct (storage_written_by_won_round_only typedRight won won_step)
    as [Hkeys [[Hsame _]|(_ & Heq & _)]].
  - discriminate Hsame.
  - split; [apply Hkeys; discriminate | exact Heq].
Defined.

(** X9. When what [localStorage] held at start-up was absent, empty or
    read back as a natural number, then in every state the page can reach
    the best streak is a natural number and the level is at most the best
    streak plus one: the best streak is never behind the rounds won in a
    row. *)
Theorem level_within_best_streak window storage (s : State) :
  storage_ok storage ->
  reachable window storage s ->
  streak_leads s.
Proof.
  intros Hstore. unfold reachable. revert s. apply rtc_ind_r.
  - destruct (init_streak_ok window storage Hstore) as [(best & Hbest & Hpos) _].
    exists best. fields. repeat split; auto. lia.
  - intros s1 s2 _ Hstep (best & Hbest & Hpos & Hlevel).
    destruct (step_outcome s1 s2 Hstep)
      as [(Hh & _ & Hl)|(_ & _ & _ & Hl & Hh & _)].
    + exists best. rewrite Hh. repeat split; auto. destruct Hl; lia.
    + exists (Z.max best (level s1)). rewrite Hh, Hbest, Hl.
      repeat split; auto; lia.
Qed.

Lemma level_within_best_streak_witness :
  exists best, highStreak won = Int best /\ (level won <= best + 1)%Z.
Proof.
  destruct (level_within_best_streak true ∅ won) as (best & Hbest & _ & Hle).
  - intros stored Hget. now rewrite lookup_empty in Hget.
  - exact won_reachable.
  - exists best. split; [exact Hbest | exact Hle].
Defined.

End PersistFacts.

(** ** The highlighted input *)

Module HighlightFacts.
Import JsString JsStringFacts JsNumber Page Spec.

Lemma highlightEntries_cons c input d correct :
  highlightEntries (String c input) (String d correct)
  = (if bool_decide (c = d) then String c "" else mark (String c ""))
      :: highlightEntries input correct.
Proof.
  unfold highlightEntries. simpl split_chars. rewrite imap_cons. f_equal.
  simpl. destruct (decide (c = d)) as [->|Hcd].
  - now rewrite !bool_decide_eq_true_2.
  - rewrite !bool_decide_eq_false_2; congruence.
Qed.

Lemma highlightEntries_past c input :
  highlightEntries (String c input) ""
  = mark (String c "") :: highlightEntries input "".
Proof.
  unfold highlightEntries. simpl split_chars. rewrite imap_cons. reflexivity.
Qed.

Lemma highlightMistakes_cons entry entries :
  join "" (entry :: entries) = entry ++ join "" entries.
Proof. apply concat_cons. Qed.

Lemma length_mark digit : String.length (mark digit) = (44 + String.length digit)%nat.
Proof. unfold mark. rewrite !length_app. simpl. lia. Qed.

(** Highlighting never shortens the input. *)
Lemma length_highlightMistakes input correct :
  (String.length input <= String.length (highlightMistakes input correct))%nat.
Proof.
  unfold highlightMistakes. revert correct.
  induction input as [|c input IH]; intros correct; [simpl; lia|].
  destruct correct as [|d correct].
  - rewrite highlightEntries_past, highlightMistakes_cons, length_app, length_mark.
    specialize (IH ""). simpl. lia.
  - rewrite highlightEntries_cons, highlightMistakes_cons, length_app.
    specialize (IH correct). case_bool_decide; rewrite ?length_mark; simpl; lia.
Qed.

(** Either nothing is marked, or the result is longer by a mark at
    least. *)
Lemma highlightMistakes_same_or_longer input correct :
  highlightMistakes input correct = input \/
  (String.length input + 44 <= String.length (highlightMistakes input correct))%nat.
Proof.
  unfold highlightMistakes. revert correct.
  induction input as [|c input IH]; intros correct; [left; reflexivity|].
  destruct correct as [|d correct].
  - right. rewrite highlightEntries_past, highlightMistakes_cons, length_app,
      length_mark.
    pose proof (length_highlightMistakes input "") as Hle.
    unfold highlightMistakes in Hle. simpl. lia.
  - rewrite highlightEntries_cons, highlightMistakes_cons.
    case_bool_decide as Hcd.
    + rewrite append_cons, append_nil.
      destruct (IH correct) as [Hsame|Hlonger]; [left | right].
      * now rewrite Hsame.
      * simpl. lia.
    + right. rewrite length_app, length_mark.
      pose proof (length_highlightMistakes input correct) as Hle.
      unfold highlightMistakes in Hle. simpl. lia.
Qed.

(** X10. [highlightMistakes] returns the input unchanged exactly when the
    input is the beginning of the target (in particular when they are
    equal); otherwise the result is longer than the input, by the 44
    characters of a mark at least. So an input that stops short of the
    target shows no mark at all. *)
Theorem highlightMistakes_unmarked_iff_prefix (input correct : string) :
  (highlightMistakes input correct = input
   <-> take (String.length input) correct = input) /\
  highlightMistakes correct correct = correct /\
  (String.length input <= String.length (highlightMistakes input correct))%nat /\
  (take (String.length input) correct <> input ->
   (String.length input + 44
    <= String.length (highlightMistakes input correct))%nat).
Proof.
  assert (Hiff : forall typed target,
             highlightMistakes typed target = typed
             <-> take (String.length typed) target = typed).
  { clear input correct. unfold highlightMistakes.
    intros input. induction input as [|c input IH]; intros correct; [simpl; tauto|].
    destruct correct as [|d correct].
    - rewrite highlightEntries_past, highlightMistakes_cons. simpl take.
      split; [|discriminate]. intros H. apply (f_equal String.length) in H.
      rewrite length_app, length_mark in H.
      pose proof (length_highlightMistakes input "") as Hle.
      unfold highlightMistakes in Hle. simpl in H. lia.
    - rewrite highlightEntries_cons, highlightMistakes_cons. simpl take.
      case_bool_decide as Hcd.
      + subst d. rewrite append_cons, append_nil. specialize (IH correct).
        split; intros [= H]; f_equal; tauto.
      + split; [|intros [= H _]; congruence].
        intros H. apply (f_equal String.length) in H.
        rewrite length_app, length_mark in H.
        pose proof (length_highlightMistakes input correct) as Hle.
        unfold highlightMistakes in Hle. simpl in H. lia. }
  split; [apply Hiff|].
  split; [|split; [apply length_highlightMistakes|]].
  - apply Hiff. clear input Hiff.
    induction correct as [|c correct IH]; simpl; congruence.
  - intros Hprefix.
    destruct (highlightMistakes_same_or_longer input correct) as [Hsame|Hlonger];
      [|exact Hlonger].
    apply Hiff in Hsame. contradiction.
Qed.

Lemma highlightMistakes_unmarked_iff_prefix_witness :
  highlightMistakes "12" "123" = "12" /\
  (String.length "19" + 44 <= String.length (highlightMistakes "19" "123"))%nat.
Proof.
  destruct (highlightMistakes_unmarked_iff_prefix "12" "123") as (Hiff & _ & _).
  destruct (highlightMistakes_unmarked_iff_prefix "19" "123") as (_ & _ & _ & Hlong).
  split; [apply Hiff; reflexivity | apply Hlong; discriminate].
Defined.

(** C2 fails on the page, through the Enter key. The claim has every
    position at which the input differs from the target flagged, which
    the form secures by letting only an input of the target's length
    through; but Enter reaches [submit] through the [keydown] listener
    with a shorter input. In the sample game the page reaches phase
    [input] with target ["77"] and input ["7"]; Enter runs [submit], the
    round is lost, the target has a digit at position 1 where the input
    has none, and the highlighted input is ["7"], with no mark. *)
Theorem enter_leaves_missing_digit_unmarked :
  reachable true ∅ halfTyped /\
  phase halfTyped = Phase.input /\
  number halfTyped = "77" /\ input halfTyped = "7" /\
  input halfTyped <> number halfTyped /\
  (forall random, handler random "Enter" halfTyped = submit halfTyped) /\
  step halfTyped (submit halfTyped) /\
  phase (submit halfTyped) = Phase.result /\
  lastRoundFailed (submit halfTyped) = true /\
  at_ (number halfTyped) 1 = Some "7"%char /\
  at_ (input halfTyped) 1 = None /\
  highlightEntries (input halfTyped) (number halfTyped) = ["7"] /\
  highlightMistakes (input halfTyped) (number halfTyped) = "7" /\
  message (submit halfTyped)
  = "Wrong 😢 The number was <span class=" ++ quote ++ "font-bold" ++ quote
    ++ ">77</span><br/>Your input: <span>7</span>".
Proof.
  split; [exact RoundFacts.halfTyped_reachable|].
  do 3 (split; [reflexivity|]).
  split; [discriminate|].
  split; [intros random; reflexivity|].
  split; [apply (step_window_keydown halfTyped sevens "Enter"),
            RoundFacts.sevens_draws|].
  do 6 (split; [reflexivity|]). reflexivity.
Qed.

End HighlightFacts.

(** ** How long the grouped digits are *)

Module ChunkLengthFacts.
Import JsString JsStringFacts JsNumber Page Spec ChunkFacts.

Lemma length_concat_sep sep (l : list string) :
  String.length (String.concat sep l)
  = (String.length (String.concat "" l) + String.length sep * (length l - 1))%nat.
Proof.
  induction l as [|x l IH]; [simpl; lia|].
  destruct l as [|y l]; [simpl; lia|].
  change (String.concat sep (x :: y :: l))
    with (x ++ sep ++ String.concat sep (y :: l)).
  change (String.concat "" (x :: y :: l))
    with (x ++ "" ++ String.concat "" (y :: l)).
  rewrite !length_app, IH. simpl length. simpl String.length. lia.
Qed.

(** A string without line terminators has one match per started block. *)
Lemma matchAll_count size (s : string) :
  all plain s = true ->
  length (matchAll (S size) s) = ((String.length s + size) / S size)%nat.
Proof.
  remember (String.length s) as n eqn:Hn. revert s Hn.
  induction n as [n IH] using lt_wf_ind. intros [|c s] Hn Hs.
  - rewrite matchAll_equation_1. subst n. simpl String.length.
    symmetry. apply Nat.div_small. lia.
  - rewrite (matchAll_plain _ _ _ Hs). cbn [length].
    rewrite (IH (String.length (drop (S size) (String c s)))
               ltac:(rewrite length_drop; subst n; simpl; lia)
               (drop (S size) (String c s)) eq_refl (all_drop _ _ _ Hs)).
    rewrite length_drop. subst n. simpl String.length.
    destruct (Nat.le_gt_cases (S size) (S (String.length s))) as [Hge|Hlt].
    + replace (S (String.length s) + size)%nat
        with ((S (String.length s) - S size + size) + 1 * S size)%nat by lia.
      rewrite Nat.div_add by lia. lia.
    + replace (S (String.length s) - S size)%nat with 0%nat by lia.
      rewrite (Nat.div_small (0 + size)) by lia.
      apply (Nat.div_unique _ _ 1 (String.length s)); lia.
Qed.

Lemma chunk_count_arith (n : nat) :
  (1 <= n)%nat -> ((n + 2) / 3 - 1 = (n - 1) / 3)%nat.
Proof.
  intros Hn. replace (n + 2)%nat with ((n - 1) + 1 * 3)%nat by lia.
  rewrite Nat.div_add by lia. lia.
Qed.

Lemma chunkDigits_page_length (s : string) :
  all plain s = true ->
  String.length (Page.chunkDigits s 3)
  = (String.length s + (String.length s - 1) / 3)%nat.
Proof.
  intros Hs.
  destruct (String.eqb_spec s "") as [->|Hne]; [reflexivity|].
  destruct (firstGroupLength_rest s Hne) as (Hn & Hle & k & Hk).
  assert (Hgroups : ((String.length s - 1) / 3 = k)%nat).
  { replace (String.length s - 1)%nat
      with ((firstGroupLength s 3 - 1) + k * 3)%nat by lia.
    rewrite Nat.div_add by lia.
    rewrite (Nat.div_small (firstGroupLength s 3 - 1)) by lia. lia. }
  assert (Hcount : length (matchAll 3 (drop (firstGroupLength s 3) s)) = k).
  { rewrite matchAll_count by now apply all_drop.
    rewrite length_drop, Hk.
    replace (k * 3 + 2)%nat with (2 + k * 3)%nat by lia.
    rewrite Nat.div_add by lia. now rewrite (Nat.div_small 2 3) by lia. }
  rewrite chunkDigits_join. unfold join. rewrite length_concat_sep.
  rewrite concat_cons, concat_matchAll_plain by now apply all_drop.
  rewrite take_drop. cbn [length]. rewrite Hcount, Hgroups.
  change (String.length ",") with 1%nat. lia.
Qed.

(** X11. On a string of [n] characters without line terminators (so on
    every target), both versions of [chunkDigits] add exactly
    [(n - 1) div 3] separators: one between any two groups, none at the
    ends; up to three characters the string comes back as it is. *)
Theorem chunkDigits_length (s : string) :
  all plain s = true ->
  String.length (Page.chunkDigits s 3)
  = (String.length s + (String.length s - 1) / 3)%nat /\
  String.length (IndexPage.chunkDigits s 3)
  = (String.length s + (String.length s - 1) / 3)%nat /\
  ((String.length s <= 3)%nat ->
   Page.chunkDigits s 3 = s /\ IndexPage.chunkDigits s 3 = s).
Proof.
  intros Hs.
  pose proof (chunkDigits_page_length s Hs) as Hpage.
  assert (Hindex : String.length (IndexPage.chunkDigits s 3)
                   = (String.length s + (String.length s - 1) / 3)%nat).
  { destruct (String.eqb_spec s "") as [->|Hne]; [reflexivity|].
    unfold IndexPage.chunkDigits, match_.
    pose proof (matchAll_count 2 s Hs) as Hcount.
    pose proof (concat_matchAll_plain 2 s Hs) as Hcat.
    assert (1 <= String.length s)%nat as Hlen
      by (destruct s; simpl; [congruence | lia]).
    destruct (matchAll 3 s) as [|m ms] eqn:Hm.
    - simpl in Hcat. congruence.
    - change (join " " <$> Some (m :: ms)) with (Some (join " " (m :: ms))).
      unfold join. rewrite length_concat_sep, Hcat, Hcount.
      change (String.length " ") with 1%nat.
      rewrite <- (chunk_count_arith _ Hlen). lia. }
  split; [exact Hpage|]. split; [exact Hindex|].
  intros Hshort.
  assert (Hzero : ((String.length s - 1) / 3 = 0)%nat) by (apply Nat.div_small; lia).
  rewrite Hzero, Nat.add_0_r in Hpage, Hindex.
  split.
  - rewrite chunkDigits_join in *. unfold join in *.
    remember (firstGroupLength s 3) as n.
    pose proof (take_drop n s) as Htd.
    pose proof (concat_matchAll_plain 2 (drop n s) (all_drop _ n _ Hs)) as Hcat.
    destruct (matchAll 3 (drop n s)) as [|m ms].
    + simpl in *. now rewrite <- Hcat, append_empty_r in Htd.
    + rewrite length_concat_sep in Hpage.
      rewrite concat_cons, Hcat, Htd in Hpage. cbn [length] in Hpage.
      change (String.length ",") with 1%nat in Hpage. lia.
  - unfold IndexPage.chunkDigits, match_ in *.
    pose proof (concat_matchAll_plain 2 s Hs) as Hcat.
    destruct (matchAll 3 s) as [|m [|m' ms]]; [reflexivity | exact Hcat |].
    change (join " " <$> Some (m :: m' :: ms))
      with (Some (join " " (m :: m' :: ms))) in Hindex.
    unfold join in Hindex.
    rewrite length_concat_sep, Hcat in Hindex. cbn [length] in Hindex.
    change (String.length " ") with 1%nat in Hindex. lia.
Qed.

Lemma chunkDigits_length_witness :
  String.length (Page.chunkDigits "1234567" 3) = 9%nat /\
  String.length (IndexPage.chunkDigits "1234567" 3) = 9%nat /\
  Page.chunkDigits "123" 3 = "123".
Proof.
  destruct (chunkDigits_length "1234567" eq_refl) as (Hpage & Hindex & _).
  destruct (chunkDigits_length "123" eq_refl) as (_ & _ & Hshort).
  split; [exact Hpage|]. split; [exact Hindex|].
  apply Hshort. simpl. lia.
Defined.

End ChunkLengthFacts.

(** ** What is on show *)

Module DisplayFacts.
Import JsString JsStringFacts JsNumber Page Spec View Machine ChunkFacts
  ChunkLengthFacts RoundFacts MachineFacts.

Lemma chunkDigits_commas_removed (s : string) :
  all plain s = true -> all (isNot ",") s = true ->
  remove "," (Page.chunkDigits s 3) = s.
Proof.
  intros Hplain Hsep. rewrite chunkDigits_join.
  set (n := firstGroupLength s 3).
  pose proof (remove_join_matchAll "," 2 (drop n s)
                (all_drop _ n _ Hplain) (all_drop _ n _ Hsep)) as Hrest.
  assert (Hfirst : remove "," (take n s) = take n s)
    by (apply remove_absent; now apply all_take).
  pose proof (take_drop n s) as Htd.
  destruct (matchAll 3 (drop n s)) as [|m ms] eqn:Hm.
  - simpl in Hrest. unfold join; simpl String.concat. rewrite Hfirst.
    now rewrite <- Hrest, append_empty_r in Htd.
  - unfold join.
    change (String.concat "," (take n s :: m :: ms))
      with (take n s ++ "," ++ String.concat "," (m :: ms)).
    now rewrite !remove_app, Hfirst, Hrest.
Qed.

(** X12. Whenever the page the game can reach is in phase [show], what it
    displays there is the target with commas put in: without the commas it
    is the target, and it has as many characters as the level plus one
    comma per three digits after the first group. *)
Theorem shown_number_is_target window storage (s : State) :
  reachable window storage s ->
  phase s = Phase.show ->
  exists shown,
    shownNumber s = Some shown /\
    remove "," shown = number s /\
    String.length shown
    = (Z.to_nat (level s) + (Z.to_nat (level s) - 1) / 3)%nat.
Proof.
  intros Hreach Hphase. destruct (reachable_page_ok _ _ _ Hreach) as [Hround _].
  destruct (ok_target _ Hround (or_introl Hphase)) as [Hlen Hdigits].
  exists (Page.chunkDigits (number s) 3). unfold shownNumber. rewrite Hphase.
  pose proof (all_impl _ _ _ digit_plain Hdigits) as Hplain.
  pose proof (all_impl _ _ _ digit_isNot_comma Hdigits) as Hsep.
  split; [reflexivity|]. split; [now apply chunkDigits_commas_removed|].
  rewrite (chunkDigits_page_length _ Hplain), <- Hlen, Nat2Z.id. reflexivity.
Qed.

Lemma shown_number_is_target_witness :
  exists text, shownNumber shown = Some text /\ remove "," text = "7".
Proof.
  destruct (shown_number_is_target true ∅ shown shown_reachable eq_refl)
    as (text & Htext & Hremove & _).
  exists text. split; [exact Htext | exact Hremove].
Defined.

End DisplayFacts.

(** ** The digits of the target, one by one *)

Module DrawFacts.
Import JsString JsStringFacts JsNumber Page Spec Machine GenerateFacts.

Lemma at_join_singles (l : list string) i x :
  Forall (fun x => exists c, x = String c "") l ->
  l !! i = Some x ->
  at_ (join "" l) i = at_ x 0.
Proof.
  unfold join. intros Hall. revert i.
  induction Hall as [|y l (c & ->) _ IH]; intros i Hi; [discriminate|].
  rewrite concat_cons, append_cons, append_nil.
  destruct i as [|i]; simpl in *; [now inversion Hi | now apply IH].
Qed.

Lemma at_join_past (l : list string) i :
  Forall (fun x => exists c, x = String c "") l ->
  (length l <= i)%nat ->
  at_ (join "" l) i = None.
Proof.
  unfold join. intros Hall. revert i.
  induction Hall as [|y l (c & ->) _ IH]; intros i Hi; [now destruct i|].
  rewrite concat_cons, append_cons, append_nil.
  destruct i as [|i]; simpl in *; [lia | apply IH; lia].
Qed.

Lemma join_snoc (l : list string) x :
  join "" (l ++ [x])%list = join "" l ++ x.
Proof.
  unfold join. induction l as [|y l IH]; [reflexivity|].
  change ((y :: l) ++ [x])%list with (y :: (l ++ [x])%list).
  now rewrite !concat_cons, IH, append_assoc.
Qed.

Lemma floor_in_range (q : Q) :
  (0 <= q)%Q -> (q < 10)%Q -> (0 <= Qfloor q <= 9)%Z.
Proof.
  intros H0 H1. split.
  - change 0%Z with (Qfloor 0). now apply Qfloor_resp_le.
  - assert (Qfloor q < 10)%Z; [|lia].
    rewrite Zlt_Qlt. eapply Qle_lt_trans; [apply Qfloor_le | exact H1].
Qed.

Lemma exact_product_in_range : product_in_range (fun r => r * 10)%Q.
Proof.
  intros r H0 H1. split.
  - rewrite <- (Qmult_0_l 10). apply Qmult_le_compat_r; [exact H0 | discriminate].
  - change 10%Q with (1 * 10)%Q at 2.
    apply Qmult_lt_compat_r; [reflexivity | exact H1].
Qed.

(** X13. With the draws of [Math.random()] in [[0, 1)], and whatever
    double the engine rounds the product of a draw by ten to, as long as
    it is in [[0, 10)]: each character of [generateNumber(L)] is a digit
    that depends on the draw of its own position only (two runs whose
    [i]-th draws are equal have the same [i]-th character, whatever the
    other draws and the two lengths); there is no character from position
    [L] on; and asking for one more digit with the same draws appends one
    digit to the same string. [generateNumber] is the case of the exact
    product. *)
Theorem generateNumber_digit_per_draw (times10 : Q -> Q)
  (random random' : nat -> Q) (L L' : Z) (i : nat) :
  product_in_range times10 ->
  draws random ->
  draws random' ->
  ((i < Z.to_nat L)%nat -> (i < Z.to_nat L')%nat ->
   random i = random' i ->
   exists c,
     isDigit c = true /\
     at_ (generateNumberBy times10 random L) i = Some c /\
     at_ (generateNumberBy times10 random' L') i = Some c) /\
  ((Z.to_nat L <= i)%nat -> at_ (generateNumberBy times10 random L) i = None) /\
  ((0 <= L)%Z ->
   exists c,
     isDigit c = true /\
     generateNumberBy times10 random (L + 1)
     = generateNumberBy times10 random L ++ String c "") /\
  generateNumberBy (fun r => r * 10)%Q random L = generateNumber random L.
Proof.
  intros Hrange Hdraws Hdraws'.
  assert (Hdigit : forall r j,
             draws r ->
             exists c, toString (Int (Qfloor (times10 (r j)))) = String c ""
                       /\ isDigit c = true).
  { intros r j Hr. destruct (Hr j) as [H0 H1].
    destruct (Hrange _ H0 H1) as [H2 H3].
    apply digit_toString, floor_in_range; assumption. }
  assert (Hall : forall r n,
             draws r ->
             Forall (fun x => exists c, x = String c "")
               (map (fun i => toString (Int (Qfloor (times10 (r i)))))
                    (seq 0 n))).
  { intros r n Hr. apply Forall_map, Forall_forall. intros j _.
    destruct (Hdigit r j Hr) as (c & Hc & _). eauto. }
  assert (Hat : forall r n c,
             draws r -> (i < n)%nat ->
             toString (Int (Qfloor (times10 (r i)))) = String c "" ->
             at_ (join "" (map (fun i => toString (Int (Qfloor (times10 (r i)))))
                               (seq 0 n))) i = Some c).
  { intros r n c Hr Hi Hc.
    rewrite (at_join_singles _ i (String c "") (Hall r n Hr)); [reflexivity|].
    rewrite list_lookup_fmap, lookup_seq_lt by exact Hi.
    cbn [fmap option_fmap option_map Nat.add]. now rewrite Hc. }
  split; [|split; [|split]]; [| | |reflexivity]; unfold generateNumberBy.
  - intros Hi Hi' Hsame.
    destruct (Hdigit random i Hdraws) as (c & Hc & Hisdigit).
    exists c. split; [exact Hisdigit|]. split; [now apply Hat|].
    apply Hat; [exact Hdraws' | exact Hi' | now rewrite <- Hsame].
  - intros Hi. apply at_join_past; [now apply Hall|].
    now rewrite length_map, length_seq.
  - intros HL.
    destruct (Hdigit random (Z.to_nat L) Hdraws) as (c & Hc & Hisdigit).
    exists c. split; [exact Hisdigit|].
    rewrite Z2Nat.inj_add by lia.
    change (Z.to_nat 1) with 1%nat. rewrite seq_app, map_app.
    cbn [map seq Nat.add]. rewrite join_snoc. now rewrite Hc.
Qed.

Lemma generateNumber_digit_per_draw_witness :
  (exists c, at_ (generateNumber sevens 3) 1 = Some c /\
             at_ (generateNumber sevens 5) 1 = Some c) /\
  at_ (generateNumber sevens 3) 3 = None.
Proof.
  destruct (generateNumber_digit_per_draw (fun r => r * 10)%Q sevens sevens 3 5 1
              exact_product_in_range
              RoundFacts.sevens_draws RoundFacts.sevens_draws)
    as (Hat & _ & _ & <-).
  destruct (generateNumber_digit_per_draw (fun r => r * 10)%Q sevens sevens 3 3 3
              exact_product_in_range
              RoundFacts.sevens_draws RoundFacts.sevens_draws)
    as (_ & Hpast & _ & _).
  split; [|apply Hpast; reflexivity].
  destruct (Hat ltac:(simpl; lia) ltac:(simpl; lia) eq_refl) as (c & _ & H3 & H5).
  exists c. split; [exact H3 | exact H5].
Defined.

End DrawFacts.

(** ** Playing rounds *)

Module GameFacts.
Import JsString JsStringFacts JsNumber Page Spec View Machine RoundFacts
  StreakFacts MachineFacts PersistFacts.

Lemma expire_phase (s : State) :
  phase (expire s) = Phase.input /\ level (expire s) = level s.
Proof. unfold expire, seq_. rewrite clearTimers_eq. split; reflexivity. Qed.

Lemma truthy_nonempty (s : string) :
  (1 <= String.length s)%nat -> truthy s = true.
Proof. destruct s; simpl; [lia | reflexivity]. Qed.

(** A round answered through the form with an answer of the target's
    length. *)
Lemma answered_facts window storage (s : State) answer :
  reachable window storage s ->
  phase s = Phase.input ->
  String.length answer = String.length (number s) ->
  reachable window storage (answered answer s) /\
  answered answer s = submit (onChange answer s) /\
  phase (answered answer s) = Phase.result /\
  (answer = number s ->
   level (answered answer s) = (level s + 1)%Z /\
   highStreak (answered answer s) = Math_max (highStreak s) (Int (level s))) /\
  (answer <> number s ->
   level (answered answer s) = 1%Z /\
   highStreak (answered answer s) = highStreak s).
Proof.
  intros Hreach Hphase Hlen.
  destruct (reachable_page_ok _ _ _ Hreach) as [Hround _].
  destruct (ok_target _ Hround (or_intror Hphase)) as [Htarget _].
  pose proof (ok_level _ Hround) as Hlevel.
  assert (Htruthy : truthy answer = true) by (apply truthy_nonempty; lia).
  assert (Hchange : reachable window storage (onChange answer s)).
  { eapply rtc_r; [exact Hreach|]. apply step_change; [exact Hphase|].
    unfold maxLength. lia. }
  assert (Hrun : answered answer s = submit (onChange answer s)).
  { unfold answered, onSubmit. run_handlers. fields. now rewrite Htruthy. }
  split; [|split; [exact Hrun|]].
  - eapply rtc_r; [exact Hchange|]. apply step_form_submit; [exact Hphase|].
    unfold submitDisabled. run_handlers. fields. rewrite Hlen.
    now rewrite Nat.eqb_refl.
  - rewrite Hrun. split; [apply submit_fields|].
    destruct (submit_outcome (onChange answer s))
      as [(He & Hl & Hh & _)|(Hne & Hl & Hh & _)]; run_handlers; fields.
    + split; [auto | congruence].
    + split; [congruence | auto].
Qed.

(** X14. A key other than Enter does nothing in either [keydown]
    listener; outside phase [input] the two listeners do the same; and
    in phase [input] an empty input is never submitted: no step leaves
    that phase or changes the level while the text field is empty. *)
Theorem empty_input_never_submitted random key (s s' : State) :
  (key <> "Enter" ->
   handler random key s = s /\ handleKeyDown random key s = s) /\
  (phase s <> Phase.input ->
   handleKeyDown random key s = handler random key s) /\
  (step s s' -> phase s = Phase.input -> input s = "" ->
   phase s' = Phase.input /\ level s' = level s /\ number s' = number s).
Proof.
  split; [|split].
  - intros Hkey. apply String.eqb_neq in Hkey.
    unfold handler, handleKeyDown. now rewrite Hkey.
  - intros Hphase. unfold handler, handleKeyDown.
    destruct (negb _); [reflexivity|]. destruct (phase s); congruence.
  - intros Hstep Hphase Hempty.
    assert (Hstay : phase s = Phase.input /\ level s = level s /\
                    number s = number s) by auto.
    destruct Hstep as [s r Hready _|s r Hresult _|s r k _|s r k _|s _ _
                       |s v _ _|s _|s id d _|s id d _]; try congruence.
    + unfold handleKeyDown. rewrite Hphase. destruct (negb _); exact Hstay.
    + unfold handler. rewrite Hphase, Hempty. destruct (negb _); exact Hstay.
    + unfold onSubmit. rewrite Hempty. exact Hstay.
    + run_handlers. fields. auto.
    + run_handlers. fields. auto.
    + unfold expire, seq_. rewrite clearTimers_eq. fields. auto.
    + run_handlers. fields. auto.
Qed.

Lemma empty_input_never_submitted_witness :
  handler sevens "a" shown = shown /\ phase typedRight = Phase.input.
Proof.
  destruct (empty_input_never_submitted sevens "a" shown shown) as ((Hkey & _) & _ & _);
    [discriminate|].
  destruct (empty_input_never_submitted sevens "a" asked typedRight)
    as (_ & _ & Hstep).
  split; [exact Hkey|].
  apply Hstep; [|reflexivity | reflexivity].
  apply (step_change asked "7"); [reflexivity | apply le_n].
Defined.

(** X15. The first round, whatever the draws of [Math.random()] and the
    storage: the start action shows a one-digit target at level 1 with
    the countdown at 2, a ticker of 1000 ms and a timeout of 1200 ms; when
    the timeout fires the page asks for the answer, with the same target,
    the countdown at 0 and no timer left; typing the target and
    submitting gives the result screen of a won round at level 2, with
    the best streak raised to at least 1. *)
Theorem first_round_won random window storage :
  draws random ->
  reachable window storage (firstAnswered random window storage) /\
  (phase (firstShown random window storage) = Phase.show /\
   level (firstShown random window storage) = 1%Z /\
   String.length (number (firstShown random window storage)) = 1%nat /\
   countdown (firstShown random window storage) = 2%Z /\
   timers (firstShown random window storage) !! 1%positive
   = Some (Interval 1000) /\
   timers (firstShown random window storage) !! 2%positive
   = Some (Timeout 1200)) /\
  (phase (firstAsked random window storage) = Phase.input /\
   number (firstAsked random window storage)
   = number (firstShown random window storage) /\
   countdown (firstAsked random window storage) = 0%Z /\
   timers (firstAsked random window storage) = ∅) /\
  (phase (firstAnswered random window storage) = Phase.result /\
   level (firstAnswered random window storage) = 2%Z /\
   lastRoundFailed (firstAnswered random window storage) = false /\
   message (firstAnswered random window storage) = "Correct! Level up 🎉" /\
   highStreak (firstAnswered random window storage)
   = Math_max (highStreak (init window storage)) (Int 1)).
Proof.
  intros Hdraws.
  set (s0 := init window storage).
  pose proof (ok_timers _ (init_round_ok window storage)) as Hown0.
  fold s0 in Hown0.
  assert (Hshown : reachable window storage (firstShown random window storage)).
  { apply rtc_once, step_start_click; [reflexivity | exact Hdraws]. }
  assert (Hshown_eq : firstShown random window storage
                      = startRound random 1
                          (setMessage (fun _ => "") (setLevel (fun _ => 1%Z) s0)))
    by reflexivity.
  rewrite (startRound_eq _ _ _ Hown0) in Hshown_eq.
  destruct (GenerateFacts.generateNumber_digits random 1 Hdraws) as [Hlen _].
  assert (Hfirst : phase (firstShown random window storage) = Phase.show /\
            level (firstShown random window storage) = 1%Z /\
            String.length (number (firstShown random window storage)) = 1%nat /\
            countdown (firstShown random window storage) = 2%Z /\
            timers (firstShown random window storage) !! 1%positive
            = Some (Interval 1000) /\
            timers (firstShown random window storage) !! 2%positive
            = Some (Timeout 1200)).
  { rewrite Hshown_eq. fields. repeat split; try reflexivity. exact Hlen. }
  destruct Hfirst as (Hp1 & Hl1 & Hn1 & Hc1 & Hi1 & Ht1).
  assert (Hasked : reachable window storage (firstAsked random window storage)).
  { eapply rtc_r; [exact Hshown|].
    apply (step_timeout _ 2%positive 1200). exact Ht1. }
  destruct (reachable_page_ok _ _ _ Hshown) as [Hround1 _].
  destruct (expire_fields _ (delete_owned _ 2%positive (ok_timers _ Hround1)))
    as (Hp2 & Hn2 & Hl2 & _). fold (firstAsked random window storage) in *.
  destruct (expire_keeps_streak
              (timers_update (delete 2%positive)
                             (firstShown random window storage))) as [Hh2 _].
  fold (firstAsked random window storage) in Hh2.
  destruct (reachable_page_ok _ _ _ Hasked) as [_ Hpage2].
  destruct (pk_idle _ Hpage2) as [Hempty2 Hzero2]; [congruence|].
  destruct (answered_facts window storage (firstAsked random window storage)
              (number (firstAsked random window storage)) Hasked Hp2 eq_refl)
    as (Hreach3 & _ & Hp3 & Hwin & _).
  fold (firstAnswered random window storage) in *.
  unfold answered in Hwin, Hp3, Hreach3.
  fold (firstAnswered random window storage) in *.
  destruct (Hwin eq_refl) as [Hl3 Hh3].
  fields. rewrite Hl2 in Hl3, Hh3. fields. rewrite Hl1 in Hl3, Hh3.
  rewrite Hh2 in Hh3.
  assert (Hh1 : highStreak (firstShown random window storage) = highStreak s0)
    by (rewrite Hshown_eq; reflexivity).
  rewrite Hh1 in Hh3.
  destruct (reachable_page_ok _ _ _ Hreach3) as [_ Hpage3].
  destruct (pk_result _ Hpage3 Hp3) as [[_ Hone]|(Hf3 & _ & Hm3)]; [lia|].
  split; [exact Hreach3|]. split; [auto 10|]. split; [auto|].
  split; [exact Hp3|]. split; [exact Hl3|]. split; [exact Hf3|].
  split; [exact Hm3 | exact Hh3].
Qed.

Lemma first_round_won_witness :
  phase (firstAnswered sevens true ∅) = Phase.result /\
  level (firstAnswered sevens true ∅) = 2%Z /\
  highStreak (firstAnswered sevens true ∅) = Int 1.
Proof.
  destruct (first_round_won sevens true ∅ sevens_draws)
    as (_ & _ & _ & Hp & Hl & _ & _ & Hh).
  split; [exact Hp|]. split; [exact Hl | exact Hh].
Defined.

(** X16. From any state in phase [input] that the page can reach,
    answering through the form with as many characters as the target has
    and then asking for the next round starts, for a right answer, a
    round one level up with one more digit, and for a wrong answer a
    round at level 1 with one digit; either way exactly the ticker and
    the timeout of that level are pending. *)
Theorem next_round_grows_or_resets window storage (s : State) random answer :
  reachable window storage s ->
  phase s = Phase.input ->
  draws random ->
  String.length answer = String.length (number s) ->
  reachable window storage (roundAfter random answer s) /\
  phase (roundAfter random answer s) = Phase.show /\
  (answer = number s ->
   level (roundAfter random answer s) = (level s + 1)%Z /\
   Z.of_nat (String.length (number (roundAfter random answer s)))
   = (level s + 1)%Z /\
   one_round_pending (level s + 1) (roundAfter random answer s)) /\
  (answer <> number s ->
   level (roundAfter random answer s) = 1%Z /\
   String.length (number (roundAfter random answer s)) = 1%nat /\
   one_round_pending 1 (roundAfter random answer s)).
Proof.
  intros Hreach Hphase Hdraws Hlen.
  destruct (answered_facts window storage s answer Hreach Hphase Hlen)
    as (Hreach2 & _ & Hp2 & Hwin & Hlose).
  assert (Hreach3 : reachable window storage (roundAfter random answer s)).
  { eapply rtc_r; [exact Hreach2|].
    apply step_next_click; [exact Hp2 | exact Hdraws]. }
  destruct (reachable_page_ok _ _ _ Hreach2) as [Hround2 _].
  destruct (next_fields random (answered answer s) (ok_timers _ Hround2))
    as (Hp3 & Hl3 & _). fold (roundAfter random answer s) in *.
  destruct (reachable_page_ok _ _ _ Hreach3) as [Hround3 Hpage3].
  destruct (pk_show _ Hpage3 Hp3) as (Hpending & _ & _).
  destruct (ok_target _ Hround3 (or_introl Hp3)) as [Htarget _].
  split; [exact Hreach3|]. split; [exact Hp3|]. split.
  - intros Heq. destruct (Hwin Heq) as [Hl2 _].
    rewrite Hl3, Hl2 in *. auto.
  - intros Hne. destruct (Hlose Hne) as [Hl2 _].
    rewrite Hl3, Hl2 in *. split; [reflexivity|]. split; [lia | exact Hpending].
Qed.

Lemma next_round_grows_or_resets_witness :
  level (roundAfter sevens "7" asked) = 2%Z /\
  level (roundAfter sevens "3" asked) = 1%Z.
Proof.
  destruct (next_round_grows_or_resets true ∅ asked sevens "7"
              asked_reachable eq_refl sevens_draws eq_refl) as (_ & _ & Hwin & _).
  destruct (next_round_grows_or_resets true ∅ asked sevens "3"
              asked_reachable eq_refl sevens_draws eq_refl) as (_ & _ & _ & Hlose).
  split.
  - apply (Hwin eq_refl).
  - apply Hlose. discriminate.
Defined.

(** X17. The time a target is shown never shrinks as the level grows: it
    is 1200 ms up to level 1, 650 ms per digit from level 2 to level 9,
    and 6000 ms from level 10 on. *)
Theorem duration_grows_then_saturates (L L' : Z) :
  (L <= L')%Z ->
  (duration L <= duration L')%Z /\
  ((L <= 1)%Z -> duration L = 1200%Z) /\
  ((2 <= L <= 9)%Z -> duration L = (650 * L)%Z) /\
  ((10 <= L)%Z -> duration L = 6000%Z).
Proof.
  intros Hle. unfold duration, MAX_TIME, MIN_TIME, TIME_PER_DIGIT.
  repeat split; intros; lia.
Qed.

Lemma duration_grows_then_saturates_witness :
  (duration 3 <= duration 12)%Z /\ duration 3 = 1950%Z /\ duration 12 = 6000%Z.
Proof.
  destruct (duration_grows_then_saturates 3 12 ltac:(lia)) as (Hle & _ & Hmid & _).
  destruct (duration_grows_then_saturates 12 12 ltac:(lia)) as (_ & _ & _ & Hcap).
  split; [exact Hle|]. split; [apply Hmid; lia | apply Hcap; lia].
Defined.

End GameFacts.

(** ** The two pages side by side *)

Module VersionFacts.
Import JsString JsNumber Versions.

Ltac open_states :=
  repeat match goal with
         | s : Page.State |- _ =>
             destruct s as [? ? ? ? ? ? ? ? ? [?|] [?|] ? ? ?]
         | t : IndexGame.State |- _ =>
             destruct t as [? ? ? ? ? ? [?|] [?|] ? ?]
         end.

Lemma forget_start random (s : Page.State) :
  IndexGame.start random (forget s) = forget (Page.start random s).
Proof. open_states; reflexivity. Qed.

Lemma forget_next random (s : Page.State) :
  IndexGame.next random (forget s) = forget (Page.next random s).
Proof. open_states; reflexivity. Qed.

Lemma forget_tick (s : Page.State) :
  IndexGame.tick (forget s) = forget (Page.tick s).
Proof. open_states; reflexivity. Qed.

Lemma forget_expire (s : Page.State) :
  IndexGame.expire (forget s) = forget (Page.expire s).
Proof. open_states; reflexivity. Qed.

Lemma forget_onChange value (s : Page.State) :
  IndexGame.onChange value (forget s) = forget (Page.onChange value s).
Proof. open_states; reflexivity. Qed.

Lemma forget_submit (s : Page.State) :
  erase (IndexGame.submit (forget s)) = erase (forget (Page.submit s)) /\
  (Page.input s = Page.number s ->
   IndexGame.submit (forget s) = forget (Page.submit s)).
Proof.
  unfold IndexGame.submit, Page.submit, IndexGame.seq_, Page.seq_.
  cbn [forget IndexGame.input IndexGame.number].
  destruct (String.eqb_spec (Page.input s) (Page.number s)) as [Heq|Hne].
  - split; [|intros _]; open_states; reflexivity.
  - split; [|congruence]. open_states; reflexivity.
Qed.

(** The earlier page's state with another message. *)
Lemma matches_relabel (s : Page.State) (t : IndexGame.State) :
  matches s t ->
  t = IndexGame.setMessage (fun _ => IndexGame.message t) (forget s).
Proof.
  unfold matches, erase, forget. destruct t, s. cbn.
  intros [= -> -> -> -> -> -> -> -> ->]. reflexivity.
Qed.

Lemma sim_start random m (s : Page.State) :
  matches (Page.start random s)
    (IndexGame.start random (IndexGame.setMessage (fun _ => m) (forget s))).
Proof. unfold matches. open_states; reflexivity. Qed.

Lemma sim_next random m (s : Page.State) :
  matches (Page.next random s)
    (IndexGame.next random (IndexGame.setMessage (fun _ => m) (forget s))).
Proof. unfold matches. open_states; reflexivity. Qed.

Lemma sim_stay m (s : Page.State) :
  matches s (IndexGame.setMessage (fun _ => m) (forget s)).
Proof. unfold matches. open_states; reflexivity. Qed.

Lemma sim_submit m (s : Page.State) :
  matches (Page.submit s)
    (IndexGame.submit (IndexGame.setMessage (fun _ => m) (forget s))).
Proof.
  unfold matches, IndexGame.submit, Page.submit, IndexGame.seq_, Page.seq_.
  cbn [forget IndexGame.setMessage IndexGame.input IndexGame.number].
  destruct (String.eqb (Page.input s) (Page.number s));
    open_states; reflexivity.
Qed.

Lemma sim_handleKeyDown random key m (s : Page.State) :
  matches (Page.handleKeyDown random key s)
    (IndexGame.handleKeyDown random key
       (IndexGame.setMessage (fun _ => m) (forget s))).
Proof.
  unfold IndexGame.handleKeyDown, Page.handleKeyDown.
  cbn [forget IndexGame.setMessage IndexGame.phase].
  destruct (negb _); [apply sim_stay|].
  destruct (Page.phase s); auto using sim_stay, sim_start, sim_next.
Qed.

Lemma sim_handler random key m (s : Page.State) :
  matches (Page.handler random key s)
    (IndexGame.handler random key
       (IndexGame.setMessage (fun _ => m) (forget s))).
Proof.
  unfold IndexGame.handler, Page.handler.
  cbn [forget IndexGame.setMessage IndexGame.phase IndexGame.input].
  destruct (negb _); [apply sim_stay|].
  destruct (Page.phase s); auto using sim_stay, sim_start, sim_next.
  destruct (Page.truthy _); auto using sim_stay, sim_submit.
Qed.

Lemma sim_expire id m (s : Page.State) :
  matches (Page.expire (Page.timers_update (delete id) s))
    (IndexGame.expire
       (IndexGame.timers_update (delete id)
          (IndexGame.setMessage (fun _ => m) (forget s)))).
Proof. unfold matches. open_states; reflexivity. Qed.

Lemma zeros_draws : Page.draws (fun _ => 0%Q).
Proof. intros i. split; [apply Qle_refl | reflexivity]. Qed.

(** One step of the later page, followed by the earlier page. *)
Lemma step_sim (s s' : Page.State) (t : IndexGame.State) :
  matches s t -> Page.step s s' ->
  exists t', IndexGame.step t t' /\ matches s' t'.
Proof.
  intros Hm Hstep. rewrite (matches_relabel s t Hm).
  set (m := IndexGame.message t). clearbody m. clear Hm t.
  destruct Hstep.
  - eexists. split; [apply IndexGame.step_start_click; eassumption|].
    apply sim_start.
  - eexists. split; [apply IndexGame.step_next_click; eassumption|].
    apply sim_next.
  - eexists. split; [apply IndexGame.step_div_keydown; eassumption|].
    apply sim_handleKeyDown.
  - eexists. split; [apply IndexGame.step_window_keydown; eassumption|].
    apply sim_handler.
  - eexists. split;
      [apply (IndexGame.step_window_keydown _ (fun _ => 0%Q) "Enter"), zeros_draws|].
    pose proof (sim_handler (fun _ => 0%Q) "Enter" m s) as Hsim.
    unfold Page.handler in Hsim. simpl negb in Hsim. cbv iota in Hsim.
    rewrite H in Hsim. exact Hsim.
  - eexists. split; [apply (IndexGame.step_change _ value); exact H|].
    unfold matches. open_states; reflexivity.
  - eexists. split;
      [apply (IndexGame.step_div_keydown _ (fun _ => 0%Q) ""), zeros_draws|].
    unfold matches. open_states; reflexivity.
  - eexists. split; [apply (IndexGame.step_timeout _ id delay); exact H|].
    apply sim_expire.
  - eexists. split; [apply (IndexGame.step_interval _ id delay); exact H|].
    unfold matches. open_states; reflexivity.
Qed.

(** X18. The handlers of the later page do to the cells that both pages
    have exactly what the handlers of the earlier page do: [start],
    [next], the ticker, the timeout and [onChange] agree on all of them,
    and so does [submit] for a right answer; for a wrong answer [submit]
    agrees on all but the message. *)
Theorem handlers_agree_on_shared_cells random value (s : Page.State) :
  IndexGame.start random (forget s) = forget (Page.start random s) /\
  IndexGame.next random (forget s) = forget (Page.next random s) /\
  IndexGame.tick (forget s) = forget (Page.tick s) /\
  IndexGame.expire (forget s) = forget (Page.expire s) /\
  IndexGame.onChange value (forget s) = forget (Page.onChange value s) /\
  erase (IndexGame.submit (forget s)) = erase (forget (Page.submit s)) /\
  (Page.input s = Page.number s ->
   IndexGame.submit (forget s) = forget (Page.submit s)).
Proof.
  split; [apply forget_start|]. split; [apply forget_next|].
  split; [apply forget_tick|]. split; [apply forget_expire|].
  split; [apply forget_onChange|]. apply forget_submit.
Qed.

Lemma handlers_agree_on_shared_cells_witness :
  IndexGame.submit (forget Spec.typedRight) = forget (Page.submit Spec.typedRight) /\
  IndexGame.level (IndexGame.submit (forget Spec.typedRight)) = 2%Z.
Proof.
  destruct (handlers_agree_on_shared_cells Spec.sevens "" Spec.typedRight)
    as (_ & _ & _ & _ & _ & _ & Hwin).
  split; [apply Hwin; reflexivity | reflexivity].
Defined.

(** X19. Whatever state the later page can reach, the earlier page can
    reach the same phase, level, target, input, countdown and timers: the
    later page only adds cells and restricts what the player can do. *)
Theorem later_page_refines_earlier window storage (s : Page.State) :
  Page.reachable window storage s ->
  exists t, IndexGame.reachable t /\ matches s t.
Proof.
  unfold Page.reachable. revert s. apply rtc_ind_r.
  - exists IndexGame.init. split; [apply rtc_refl | reflexivity].
  - intros s1 s2 _ Hstep (t & Hreach & Hm).
    destruct (step_sim s1 s2 t Hm Hstep) as (t' & Hstep' & Hm').
    exists t'. split; [|exact Hm']. eapply rtc_r; eassumption.
Qed.

Lemma later_page_refines_earlier_witness :
  exists t, IndexGame.reachable t /\ IndexGame.level t = 2%Z /\
            IndexGame.phase t = Page.Phase.result.
Proof.
  destruct (later_page_refines_earlier true ∅ Spec.won MachineFacts.won_reachable)
    as (t & Hreach & Hm).
  exists t. split; [exact Hreach|].
  apply (f_equal IndexGame.level) in Hm as Hl.
  apply (f_equal IndexGame.phase) in Hm as Hp.
  split; [exact Hl | exact Hp].
Defined.

End VersionFacts.
